(** * lazytrader: the event listener, the ledger and the execution engine

    A shallow embedding of
    - [internal/listener/polymarket_listener.go] (module [Listener]; in the
      sources it follows [internal/config/config.go] in one file),
    - [internal/config/config.go] (module [Configuration]),
    - [internal/database/database.go] (module [Database]),
    - [internal/executor/executor.go] (module [Executor]),
    - [internal/ingestion/ingestion.go] (module [Ingestion]),
    followed by the properties of the specification that they decide.

    What the program asks of the chain, of the ranking API and of the SQLite
    driver is an input of the model: the logs of a block, the cases that a
    [select] takes, the answer of a query, the failure of a statement.  Time
    stamps are left out. *)

From Stdlib Require Import ZArith List String Ascii Floats Lia Sorted Permutation.
From stdpp Require Import gmap strings list.

Local Open Scope string_scope.
Local Open Scope list_scope.
Local Open Scope Z_scope.

(** ** Go values shared by the packages *)

(** [error]: an error with a message, as a driver or a library gives, and an
    error wrapped by [fmt.Errorf] with the verb [%w] after a prefix. *)
Inductive error : Type :=
| ErrorString (msg : string)
| WrapError (prefix : string) (cause : error).

(** A run-time panic of the Go program. *)
Inductive panic : Type :=
| IndexOutOfRange (index len : nat)
| SliceOutOfRange (bound len : nat).

(** [strings.ToLower] on ASCII text: the letters 'A'..'Z' move to 'a'..'z'.
    Bytes above 127, which Go folds as Unicode, are left alone; the strings of
    this program are hexadecimal addresses. *)
Definition lower_ascii (c : ascii) : ascii :=
  let n := N_of_ascii c in
  if ((65 <=? n) && (n <=? 90))%N then ascii_of_N (n + 32) else c.

Fixpoint ToLower (s : string) : string :=
  match s with
  | EmptyString => EmptyString
  | String c s' => String (lower_ascii c) (ToLower s')
  end.

(** [s[:n]]: the first [n] bytes of [s]; out of range when [n > len(s)]. *)
Definition slice_to (s : string) (n : nat) : panic + string :=
  if (n <=? String.length s)%nat then inr (substring 0 n s)
  else inl (SliceOutOfRange n (String.length s)).

(** ** The listener: detection of the tracked traders' fills *)

Module Listener.

(** [common.Address] ([20]byte) and [common.Hash] ([32]byte), as numbers. *)
Definition Address := Z.
Definition Hash := Z.

Record OrderFilledEvent : Type := {
  OrderHash : Hash;
  Maker : Address;
  Taker : Address;
  MakerAssetId : Z;
  TakerAssetId : Z;
  MakerAmountFilled : Z;
  TakerAmountFilled : Z;
  Fee : Z
}.

(** The [*big.Int] fields of a signal are [nil] until they are assigned. *)
Record TradeSignal : Type := {
  Trader : string;
  Side : string;
  MarketID : string;
  TokenID : option Z;
  Amount : option Z;
  Price : option Z;
  TxHash : string
}.

Definition zero_signal : TradeSignal :=
  {| Trader := ""; Side := ""; MarketID := ""; TokenID := None;
     Amount := None; Price := None; TxHash := "" |}.

Definition with_Trader (v : string) (s : TradeSignal) : TradeSignal :=
  {| Trader := v; Side := Side s; MarketID := MarketID s; TokenID := TokenID s;
     Amount := Amount s; Price := Price s; TxHash := TxHash s |}.

Definition with_order (side : string) (token amount : Z) (s : TradeSignal) : TradeSignal :=
  {| Trader := Trader s; Side := side; MarketID := MarketID s; TokenID := Some token;
     Amount := Some amount; Price := Price s; TxHash := TxHash s |}.

Definition with_Price (v : Z) (s : TradeSignal) : TradeSignal :=
  {| Trader := Trader s; Side := Side s; MarketID := MarketID s; TokenID := TokenID s;
     Amount := Amount s; Price := Some v; TxHash := TxHash s |}.

Section WithHex.

(** [common.Address.Hex]: the EIP-55 rendering of an address.  Its letter case
    comes from a Keccak-256 digest, which is not modelled. *)
Variable Hex : Address -> string.

(** [extractTradeSignal], without its closing [fmt.Printf], which
    [processOrderFilled] below emits.  [big.Int.Div] is Euclidean division and
    is only reached with a positive divisor, where it is [Z.div]. *)
Definition extractTradeSignal (event : OrderFilledEvent) (makerIsTop takerIsTop : bool)
  : TradeSignal :=
  let signal := zero_signal in
  let signal :=
    if makerIsTop then
      let signal := with_Trader (Hex (Maker event)) signal in
      if MakerAssetId event =? 0
      then with_order "BUY" (TakerAssetId event) (TakerAmountFilled event) signal
      else with_order "SELL" (MakerAssetId event) (MakerAmountFilled event) signal
    else if takerIsTop then
      let signal := with_Trader (Hex (Taker event)) signal in
      if TakerAssetId event =? 0
      then with_order "BUY" (MakerAssetId event) (MakerAmountFilled event) signal
      else with_order "SELL" (TakerAssetId event) (TakerAmountFilled event) signal
    else signal in
  if String.eqb (Side signal) "BUY" && (0 <? MakerAmountFilled event)
  then with_Price (TakerAmountFilled event * 1000000 / MakerAmountFilled event) signal
  else signal.

End WithHex.

(** *** Logs, output and the listener's state *)

(** The fields of [types.Log] that the listener can read. *)
Record Log : Type := {
  LogAddress : Address;
  Topics : list Hash;
  Data : list Byte.byte;
  BlockNumber : Z;
  LogTxHash : Hash;
  Index : Z
}.

(** What the listener writes: one constructor per [log.Printf] or
    [fmt.Print*] call, with the values it formats. *)
Inductive Output : Type :=
| Println_topics (topics : list Hash)
| Log_not_top_trader
| Log_activity_detected
| Log_maker (prefix : string) (top : bool)
| Log_taker (prefix : string) (top : bool)
| Log_maker_asset (v : Z)
| Log_taker_asset (v : Z)
| Log_maker_amount (v : Z)
| Log_taker_amount (v : Z)
| Log_tx (tx : Hash)
| Printf_signal (signal : TradeSignal)
| Log_storing (prefix side : string) (token amount : option Z)
| Log_orders_matched (tx : Hash)
| Log_error_processing_log (err : error)
| Log_error_processing_block (number : Z) (err : error)
| Log_starting
| Log_subscription_error (err : option error)
| Log_failed_top_traders (err : error)
| Log_updated_top_traders (count : nat).

Record PolymarketListener : Type := {
  TopTradersCount : Z;
  orderFilledSig : Hash;
  ordersMatchedSig : Hash;
  topTraders : gmap string bool
}.

Definition with_topTraders (m : gmap string bool) (l : PolymarketListener)
  : PolymarketListener :=
  {| TopTradersCount := TopTradersCount l; orderFilledSig := orderFilledSig l;
     ordersMatchedSig := ordersMatchedSig l; topTraders := m |}.

(** [l.topTraders[key]]: a missing key reads as [false]. *)
Definition isTop (l : PolymarketListener) (key : string) : bool :=
  default false (topTraders l !! key).

(** *** Computations that write output and may panic *)

Inductive outcome (A : Type) : Type :=
| Ret (a : A)
| Panicked (p : panic).
Arguments Ret {A} a.
Arguments Panicked {A} p.

Definition M (A : Type) : Type := (list Output * outcome A)%type.

#[export] Instance M_ret : MRet M := fun A a => ([], Ret a).

#[export] Instance M_bind : MBind M := fun A B k m =>
  match m with
  | (out, Ret a) => let '(out', r) := k a in (out ++ out', r)
  | (out, Panicked p) => (out, Panicked p)
  end.

Definition emit (x : Output) : M unit := ([x], Ret tt).

Definition throw {A : Type} (p : panic) : M A := ([], Panicked p).

(** A computation that returns, whatever it writes. *)
Definition returns {A : Type} (m : M A) : Prop := exists out a, m = (out, Ret a).

Definition slice10 (s : string) : M string :=
  match slice_to s 10 with
  | inl p => throw p
  | inr prefix => mret prefix
  end.

(** *** Decoding *)

(** A big-endian unsigned number, [new(big.Int).SetBytes]. *)
Definition be_uint (bs : list Byte.byte) : Z :=
  fold_left (fun acc b => acc * 256 + Z.of_N (Byte.to_N b)) bs 0.

(** The [i]-th 32-byte word of a payload. *)
Definition word (i : nat) (data : list Byte.byte) : Z :=
  be_uint (firstn 32 (skipn (32 * i) data)).

Definition zero_event : OrderFilledEvent :=
  {| OrderHash := 0; Maker := 0; Taker := 0; MakerAssetId := 0; TakerAssetId := 0;
     MakerAmountFilled := 0; TakerAmountFilled := 0; Fee := 0 |}.

(** [l.exchangeABI.UnpackIntoInterface(event, "OrderFilled", vLog.Data)] on
    [event := &OrderFilledEvent{}].  In [CTFExchangeABI] the inputs
    [orderHash], [maker] and [taker] are indexed, so the payload holds the five
    other inputs, one 32-byte word each, and only those fields are assigned.
    go-ethereum refuses an empty payload, and a payload that ends before the
    word of an input (the lengths it prints in the message are left out). *)
Definition UnpackIntoInterface (data : list Byte.byte) : error + OrderFilledEvent :=
  if (length data =? 0)%nat
  then inl (ErrorString "abi: attempting to unmarshall an empty string while arguments are expected")
  else if (length data <? 160)%nat
  then inl (ErrorString "abi: cannot marshal in to go type: length insufficient")
  else inr {| OrderHash := OrderHash zero_event;
              Maker := Maker zero_event;
              Taker := Taker zero_event;
              MakerAssetId := word 0 data;
              TakerAssetId := word 1 data;
              MakerAmountFilled := word 2 data;
              TakerAmountFilled := word 3 data;
              Fee := word 4 data |}.

Definition with_OrderHash (h : Hash) (e : OrderFilledEvent) : OrderFilledEvent :=
  {| OrderHash := h; Maker := Maker e; Taker := Taker e;
     MakerAssetId := MakerAssetId e; TakerAssetId := TakerAssetId e;
     MakerAmountFilled := MakerAmountFilled e;
     TakerAmountFilled := TakerAmountFilled e; Fee := Fee e |}.

(** *** Processing one log *)

Section Processing.

Variable Hex : Address -> string.

Definition storeTradeSignal (signal : TradeSignal) (txHash : Hash) : M (option error) :=
  prefix ← slice10 (Trader signal);
  emit (Log_storing prefix (Side signal) (TokenID signal) (Amount signal));;
  mret None.

Definition processOrderFilled (l : PolymarketListener) (vLog : Log) : M (option error) :=
  match UnpackIntoInterface (Data vLog) with
  | inl err => mret (Some (WrapError "failed to unpack OrderFilled" err))
  | inr event =>
    let event :=
      if (2 <=? length (Topics vLog))%nat
      then with_OrderHash (nth 1 (Topics vLog) 0) event
      else event in
    let maker := Hex (Maker event) in
    let taker := Hex (Taker event) in
    let makerIsTop := isTop l (ToLower maker) in
    let takerIsTop := isTop l (ToLower taker) in
    if negb makerIsTop && negb takerIsTop then
      emit Log_not_top_trader;;
      mret None
    else
      emit Log_activity_detected;;
      maker10 ← slice10 maker;
      emit (Log_maker maker10 makerIsTop);;
      taker10 ← slice10 taker;
      emit (Log_taker taker10 takerIsTop);;
      emit (Log_maker_asset (MakerAssetId event));;
      emit (Log_taker_asset (TakerAssetId event));;
      emit (Log_maker_amount (MakerAmountFilled event));;
      emit (Log_taker_amount (TakerAmountFilled event));;
      emit (Log_tx (LogTxHash vLog));;
      let tradeSignal := extractTradeSignal Hex event makerIsTop takerIsTop in
      emit (Printf_signal tradeSignal);;
      storeTradeSignal tradeSignal (LogTxHash vLog)
  end.

Definition processOrdersMatched (vLog : Log) : M (option error) :=
  emit (Log_orders_matched (LogTxHash vLog));;
  mret None.

(** [vLog.Topics[0]] is read with no check of [len(vLog.Topics)]. *)
Definition processLog (l : PolymarketListener) (vLog : Log) : M (option error) :=
  emit (Println_topics (Topics vLog));;
  match Topics vLog with
  | [] => throw (IndexOutOfRange 0 0)
  | topic0 :: _ =>
    if topic0 =? orderFilledSig l then processOrderFilled l vLog
    else if topic0 =? ordersMatchedSig l then processOrdersMatched vLog
    else mret None
  end.

(** *** Processing one block *)

(** What the logs of a list write when each is processed on its own. *)
Definition outputs (l : PolymarketListener) (logs : list Log) : list Output :=
  concat (map (fun vLog => (processLog l vLog).1) logs).

(** The [for _, vLog := range logs] loop of [processBlock]: the first log whose
    processing returns an error is reported and the loop is left ([break]). *)
Fixpoint processLogs (l : PolymarketListener) (logs : list Log) : M unit :=
  match logs with
  | [] => mret tt
  | vLog :: rest =>
    err ← processLog l vLog;
    match err with
    | Some e => emit (Log_error_processing_log e)
    | None => processLogs l rest
    end
  end.

(** [processBlock]; [filtered] is what [l.client.FilterLogs] answers for the
    block. *)
Definition processBlock (l : PolymarketListener) (blockNumber : Z)
    (filtered : error + list Log) : M (option error) :=
  match filtered with
  | inl err => mret (Some (WrapError "failed to filter logs" err))
  | inr logs => processLogs l logs;; mret None
  end.

(** *** The watch loop *)

(** The case that a [select] of [Start] takes. *)
Inductive Select : Type :=
| CtxDone (err : error)
| SubErr (err : option error)
| Header (number : Z) (filtered : error + list Log).

(** Where [Start] stands when the cases run out. *)
Inductive Stopped : Type :=
| Returned (err : option error)
| Waiting.

(** The [for { select { ... } }] loop of [Start], over the cases taken. *)
Fixpoint watch (l : PolymarketListener) (cases : list Select) : M Stopped :=
  match cases with
  | [] => mret Waiting
  | CtxDone err :: _ => mret (Returned (Some err))
  | SubErr err :: _ =>
    emit (Log_subscription_error err);;
    mret (Returned err)
  | Header number filtered :: rest =>
    err ← processBlock l number filtered;
    match err with
    | Some e => emit (Log_error_processing_block number e)
    | None => mret tt
    end;;
    watch l rest
  end.

(** [Start], the goroutine that calls it only; [subscribed] is the error of
    [l.client.SubscribeNewHead], if any.  The two goroutines that [Start]
    spawns with [go] are not part of this definition: [pollHistoricalBlocks],
    whose ticks do nothing, and [updateTopTraders] (below), which assigns and
    fills [l.topTraders] with no lock around it.  [watch] therefore describes
    the loop for as long as that field is not written, with the map that [l]
    holds; [watch_tracking] below takes the map that the field holds at each
    case.  A lookup of [processOrderFilled] that overlaps one of those writes
    is outside both: Go gives it no meaning, and its runtime may end the
    process there. *)
Definition Start (l : PolymarketListener) (subscribed : option error)
    (cases : list Select) : M Stopped :=
  emit Log_starting;;
  match subscribed with
  | Some err => mret (Returned (Some (WrapError "failed to subscribe to new heads" err)))
  | None => watch l cases
  end.


End Processing.

(** *** Refreshing the tracked traders *)

(** The [for _, trader := range traders] loop of [updateTopTraders]. *)
Definition fill (m : gmap string bool) (traders : list string) : gmap string bool :=
  fold_left (fun m trader => <[ToLower trader := true]> m) traders m.

(** One tick of [updateTopTraders]; [fetched] is what [l.db.GetTopTraders]
    answers. *)
Definition refresh (l : PolymarketListener) (fetched : error + list string)
  : PolymarketListener * list Output :=
  match fetched with
  | inl err => (l, [Log_failed_top_traders err])
  | inr traders =>
    let l := with_topTraders ∅ l in
    let l := with_topTraders (fill (topTraders l) traders) l in
    (l, [Log_updated_top_traders (size (topTraders l))])
  end.

(** The case that a [select] of [updateTopTraders] takes. *)
Inductive Tick : Type :=
| TickDone
| TickC (fetched : error + list string).

Fixpoint updateTopTraders (l : PolymarketListener) (cases : list Tick)
  : PolymarketListener * list Output :=
  match cases with
  | [] => (l, [])
  | TickDone :: _ => (l, [])
  | TickC fetched :: rest =>
    let '(l, out) := refresh l fetched in
    let '(l, out') := updateTopTraders l rest in
    (l, out ++ out')
  end.




(** *** Shapes of inputs, for the statements below *)


(** The list that the last successful query gave among the ticks taken before
    the context is done, if any query succeeded. *)
Fixpoint last_fetch (seen : option (list string)) (cases : list Tick)
  : option (list string) :=
  match cases with
  | [] => seen
  | TickDone :: _ => seen
  | TickC (inl _) :: rest => last_fetch seen rest
  | TickC (inr traders) :: rest => last_fetch (Some traders) rest
  end.

End Listener.

(** ** The ledger: positions, trades and the ranked traders *)

Module Database.

(** The Go structs that the operations return, without their time stamps. *)
Module Position.
Record t : Type := {
  ID : Z;
  MarketID : string;
  TokenID : string;
  Outcome : string;
  Amount : float;
  AvgPrice : float;
  CurrentPrice : float;
  Status : string
}.
End Position.

Module Trade.
Record t : Type := {
  ID : Z;
  PositionID : Z;
  TraderAddress : string;
  Side : string;
  Amount : float;
  Price : float;
  TxHash : string;
  Status : string
}.
End Trade.

(** The rows of the tables of [migrate], without [created_at], [closed_at] and
    [last_updated].  [tx_hash] is the one column read or written here that can
    be NULL.  The [id] of [top_traders] is never read and is left out. *)
Record PositionRow : Type := {
  p_id : Z;
  p_market_id : string;
  p_token_id : string;
  p_outcome : string;
  p_amount : float;
  p_avg_price : float;
  p_current_price : float;
  p_status : string
}.

Record TradeRow : Type := {
  t_id : Z;
  t_position_id : Z;
  t_trader_address : string;
  t_side : string;
  t_amount : float;
  t_price : float;
  t_tx_hash : option string;
  t_status : string
}.

Record TopTraderRow : Type := {
  r_address : string;
  r_total_pnl : float;
  r_win_rate : float
}.

(** The database behind [db.conn].  [positions_seq] and [trades_seq] are the
    counters that SQLite keeps for the AUTOINCREMENT keys.  [faults] scripts
    the driver: each statement takes the head of the list, and fails with that
    error if there is one (a lock, the disk, a constraint); past the end of the
    list every statement succeeds.  The foreign key of [trades] is declared but
    the connection does not turn the enforcement on. *)
Record DB : Type := {
  positions : list PositionRow;
  positions_seq : Z;
  trades : list TradeRow;
  trades_seq : Z;
  top_traders : list TopTraderRow;
  faults : list (option error)
}.

Definition empty (script : list (option error)) : DB :=
  {| positions := []; positions_seq := 0; trades := []; trades_seq := 0;
     top_traders := []; faults := script |}.

Definition with_faults (script : list (option error)) (db : DB) : DB :=
  {| positions := positions db; positions_seq := positions_seq db;
     trades := trades db; trades_seq := trades_seq db;
     top_traders := top_traders db; faults := script |}.

(** The driver's answer to the next statement, and the database after it. *)
Definition next_fault (db : DB) : option error * DB :=
  match faults db with
  | [] => (None, db)
  | f :: script => (f, with_faults script db)
  end.

(** The driver's answer to the statement that comes [i] statements from now. *)
Definition fault_at (i : nat) (db : DB) : option error := nth i (faults db) None.

(** The key of a new row of an AUTOINCREMENT table: one more than the largest
    key the table has or ever had. *)
Definition next_rowid (seq : Z) (ids : list Z) : Z :=
  fold_right Z.max seq ids + 1.

Definition CreatePosition (marketID tokenID outcome : string) (amount price : float)
    (db : DB) : (error + Position.t) * DB :=
  match next_fault db with
  | (Some err, db) => (inl err, db)
  | (None, db) =>
    let id := next_rowid (positions_seq db) (map p_id (positions db)) in
    let row := {| p_id := id; p_market_id := marketID; p_token_id := tokenID;
                  p_outcome := outcome; p_amount := amount; p_avg_price := price;
                  p_current_price := price; p_status := "open" |} in
    (inr {| Position.ID := id; Position.MarketID := marketID;
            Position.TokenID := tokenID; Position.Outcome := outcome;
            Position.Amount := amount; Position.AvgPrice := price;
            Position.CurrentPrice := price; Position.Status := "open" |},
     {| positions := positions db ++ [row]; positions_seq := id;
        trades := trades db; trades_seq := trades_seq db;
        top_traders := top_traders db; faults := faults db |})
  end.

Definition CreateTrade (positionID : Z) (traderAddr side : string) (amount price : float)
    (db : DB) : (error + Trade.t) * DB :=
  match next_fault db with
  | (Some err, db) => (inl err, db)
  | (None, db) =>
    let id := next_rowid (trades_seq db) (map t_id (trades db)) in
    let row := {| t_id := id; t_position_id := positionID;
                  t_trader_address := traderAddr; t_side := side;
                  t_amount := amount; t_price := price; t_tx_hash := None;
                  t_status := "pending" |} in
    (inr {| Trade.ID := id; Trade.PositionID := positionID;
            Trade.TraderAddress := traderAddr; Trade.Side := side;
            Trade.Amount := amount; Trade.Price := price; Trade.TxHash := "";
            Trade.Status := "pending" |},
     {| positions := positions db; positions_seq := positions_seq db;
        trades := trades db ++ [row]; trades_seq := id;
        top_traders := top_traders db; faults := faults db |})
  end.

(** [UPDATE trades SET status = ?, tx_hash = ? WHERE id = ?] on one row. *)
Definition set_status (tradeID : Z) (status txHash : string) (row : TradeRow) : TradeRow :=
  if t_id row =? tradeID
  then {| t_id := t_id row; t_position_id := t_position_id row;
          t_trader_address := t_trader_address row; t_side := t_side row;
          t_amount := t_amount row; t_price := t_price row;
          t_tx_hash := Some txHash; t_status := status |}
  else row.

Definition UpdateTradeStatus (tradeID : Z) (status txHash : string) (db : DB)
  : option error * DB :=
  match next_fault db with
  | (Some err, db) => (Some err, db)
  | (None, db) =>
    (None,
     {| positions := positions db; positions_seq := positions_seq db;
        trades := map (set_status tradeID status txHash) (trades db);
        trades_seq := trades_seq db;
        top_traders := top_traders db; faults := faults db |})
  end.

(** [INSERT ... ON CONFLICT(address) DO UPDATE] on the rows of [top_traders]. *)
Fixpoint upsert (address : string) (pnl winRate : float) (rows : list TopTraderRow)
  : list TopTraderRow :=
  match rows with
  | [] => [{| r_address := address; r_total_pnl := pnl; r_win_rate := winRate |}]
  | row :: rest =>
    if String.eqb (r_address row) address
    then {| r_address := address; r_total_pnl := pnl; r_win_rate := winRate |} :: rest
    else row :: upsert address pnl winRate rest
  end.

Definition UpsertTopTrader (address : string) (pnl winRate : float) (db : DB)
  : option error * DB :=
  match next_fault db with
  | (Some err, db) => (Some err, db)
  | (None, db) =>
    (None,
     {| positions := positions db; positions_seq := positions_seq db;
        trades := trades db; trades_seq := trades_seq db;
        top_traders := upsert address pnl winRate (top_traders db);
        faults := faults db |})
  end.

(** [ORDER BY total_pnl DESC]: rows of equal profit keep the order of the
    table (SQLite leaves their order open). *)
Fixpoint insert_desc (row : TopTraderRow) (sorted : list TopTraderRow) : list TopTraderRow :=
  match sorted with
  | [] => [row]
  | r :: rest =>
    if (r_total_pnl r <? r_total_pnl row)%float then row :: sorted
    else r :: insert_desc row rest
  end.

Definition order_by_pnl_desc (rows : list TopTraderRow) : list TopTraderRow :=
  fold_left (fun sorted row => insert_desc row sorted) rows [].

(** [LIMIT ?]: a negative limit is no limit. *)
Definition limit_rows {A : Type} (limit : Z) (rows : list A) : list A :=
  if limit <? 0 then rows else firstn (Z.to_nat limit) rows.

Definition GetTopTraders (limit : Z) (db : DB) : (error + list string) * DB :=
  match next_fault db with
  | (Some err, db) => (inl err, db)
  | (None, db) =>
    (inr (map r_address (limit_rows limit (order_by_pnl_desc (top_traders db)))), db)
  end.

(** The struct that [rows.Scan] fills from a row of [positions]. *)
Definition scan_position (row : PositionRow) : Position.t :=
  {| Position.ID := p_id row; Position.MarketID := p_market_id row;
     Position.TokenID := p_token_id row; Position.Outcome := p_outcome row;
     Position.Amount := p_amount row; Position.AvgPrice := p_avg_price row;
     Position.CurrentPrice := p_current_price row; Position.Status := p_status row |}.

(** [GetOpenPositions]: the rows [WHERE status = 'open'], in the order of the
    table; [rows.Scan] does not fail on the rows that this program writes. *)
Definition GetOpenPositions (db : DB) : (error + list Position.t) * DB :=
  match next_fault db with
  | (Some err, db) => (inl err, db)
  | (None, db) =>
    (inr (map scan_position
            (List.filter (fun row => String.eqb (p_status row) "open")
               (positions db))),
     db)
  end.

(** The row of [top_traders] with an address, if there is one. *)
Definition find_trader (address : string) (rows : list TopTraderRow)
  : option TopTraderRow :=
  find (fun row => String.eqb (r_address row) address) rows.

(** *** Users *)

Module User.
Record t : Type := {
  ID : Z;
  Address : string;
  DepositAmount : float;
  Shares : float
}.
End User.

Record UserRow : Type := {
  u_id : Z;
  u_address : string;
  u_deposit_amount : float;
  u_shares : float
}.

(** The database with its [users] table, whose [address] is UNIQUE. *)
Record Ledger : Type := {
  store : DB;
  users : list UserRow;
  users_seq : Z
}.

Definition has_user (address : string) (rows : list UserRow) : bool :=
  existsb (fun row => String.eqb (u_address row) address) rows.

(** [CreateUser]: the insert fails when the driver fails and when the address
    is in the table already. *)
Definition CreateUser (address : string) (depositAmount : float) (lg : Ledger)
  : (error + User.t) * Ledger :=
  let shares := depositAmount in
  match next_fault (store lg) with
  | (Some err, db) =>
    (inl err, {| store := db; users := users lg; users_seq := users_seq lg |})
  | (None, db) =>
    if has_user address (users lg)
    then (inl (ErrorString "UNIQUE constraint failed: users.address"),
          {| store := db; users := users lg; users_seq := users_seq lg |})
    else
      let id := next_rowid (users_seq lg) (map u_id (users lg)) in
      let row := {| u_id := id; u_address := address;
                    u_deposit_amount := depositAmount; u_shares := shares |} in
      (inr {| User.ID := id; User.Address := address;
              User.DepositAmount := depositAmount; User.Shares := shares |},
       {| store := db; users := users lg ++ [row]; users_seq := id |})
  end.

Definition zero_user : User.t :=
  {| User.ID := 0; User.Address := ""; User.DepositAmount := 0%float;
     User.Shares := 0%float |}.

(** [GetUser]: [nil, nil] when no row has the address; on any other error the
    empty struct is returned beside the error. *)
Definition GetUser (address : string) (lg : Ledger)
  : (option User.t * option error) * Ledger :=
  match next_fault (store lg) with
  | (Some err, db) =>
    ((Some zero_user, Some err),
     {| store := db; users := users lg; users_seq := users_seq lg |})
  | (None, db) =>
    let lg' := {| store := db; users := users lg; users_seq := users_seq lg |} in
    match find (fun row => String.eqb (u_address row) address) (users lg) with
    | Some row =>
      ((Some {| User.ID := u_id row; User.Address := u_address row;
                User.DepositAmount := u_deposit_amount row;
                User.Shares := u_shares row |}, None), lg')
    | None => ((None, None), lg')
    end
  end.

(** *** Shapes of ledgers, for the statements below *)

(** The columns of a trade that no statement of this program updates. *)
Definition trade_core (row : TradeRow) : Z * Z * string * string * float * float :=
  (t_id row, t_position_id row, t_trader_address row, t_side row, t_amount row,
   t_price row).

(** The keys are unique, every trade points at a position of the ledger, no
    two trades point at the same one, and every position is open. *)
Definition ledger_ok (db : DB) : Prop :=
  NoDup (map p_id (positions db)) /\
  NoDup (map t_id (trades db)) /\
  NoDup (map t_position_id (trades db)) /\
  (forall row, In row (trades db) -> In (t_position_id row) (map p_id (positions db))) /\
  Forall (fun row => p_status row = "open") (positions db).

(** [a] is not ranked below [b]. *)
Definition not_below (a b : TopTraderRow) : Prop :=
  (r_total_pnl a <? r_total_pnl b)%float = false.

End Database.

(** ** The execution engine *)

Module Executor.

Import Database.

Record TradeRequest : Type := {
  MarketID : string;
  TokenID : string;
  Outcome : string;
  Side : string;
  Amount : float;
  Price : float
}.

Inductive Output : Type :=
| Log_executing (req : TradeRequest)
| Log_submitted (txHash : string)
| Log_failed_update (err : error)
| Log_trade_executed (txHash : string).

(** [fmt.Sprintf("0x%064x", 12345)]. *)
Definition mockTxHash : string :=
  "0x0000000000000000000000000000000000000000000000000000000000003039".

(** [submitTrade]; [transactor] is the error of
    [bind.NewKeyedTransactorWithChainID(e.privateKey, e.chainID)], if any. *)
Definition submitTrade (transactor : option error) (req : TradeRequest)
  : (error + string) * list Output :=
  match transactor with
  | Some err => (inl err, [])
  | None => (inr mockTxHash, [Log_submitted mockTxHash])
  end.

Definition ExecuteTrade (transactor : option error) (req : TradeRequest) (db : DB)
  : option error * DB * list Output :=
  let out := [Log_executing req] in
  match CreatePosition (MarketID req) (TokenID req) (Outcome req) (Amount req) (Price req) db with
  | (inl err, db) => (Some (WrapError "failed to create position" err), db, out)
  | (inr position, db) =>
    match CreateTrade (Position.ID position) "" (Side req) (Amount req) (Price req) db with
    | (inl err, db) => (Some (WrapError "failed to create trade" err), db, out)
    | (inr trade, db) =>
      match submitTrade transactor req with
      | (inl err, out') =>
        let '(_, db) := UpdateTradeStatus (Trade.ID trade) "failed" "" db in
        (Some (WrapError "failed to submit trade" err), db, out ++ out')
      | (inr txHash, out') =>
        let '(failed, db) := UpdateTradeStatus (Trade.ID trade) "confirmed" txHash db in
        let out'' := match failed with
                     | Some err => [Log_failed_update err]
                     | None => []
                     end in
        (None, db, out ++ out' ++ out'' ++ [Log_trade_executed txHash])
      end
    end
  end.

(** The rows that [ExecuteTrade] inserts for a request. *)
Definition position_row (req : TradeRequest) (db : DB) : PositionRow :=
  {| p_id := next_rowid (positions_seq db) (map p_id (positions db));
     p_market_id := MarketID req; p_token_id := TokenID req;
     p_outcome := Outcome req; p_amount := Amount req; p_avg_price := Price req;
     p_current_price := Price req; p_status := "open" |}.

Definition trade_row (req : TradeRequest) (db : DB) (status : string)
    (txHash : option string) : TradeRow :=
  {| t_id := next_rowid (trades_seq db) (map t_id (trades db));
     t_position_id := p_id (position_row req db);
     t_trader_address := ""; t_side := Side req; t_amount := Amount req;
     t_price := Price req; t_tx_hash := txHash; t_status := status |}.

(** The same request handed to [ExecuteTrade] [n] times in a row. *)
Fixpoint deliver (n : nat) (transactor : option error) (req : TradeRequest) (db : DB) : DB :=
  match n with
  | O => db
  | S n' => deliver n' transactor req (ExecuteTrade transactor req db).1.2
  end.

End Executor.

(** ** The ingestion service: the leaderboard of the ranking API *)

Module Ingestion.

Import Database.

(** The fields of [config.Config] that the service reads. *)
Record Config : Type := {
  TopTradersCount : Z;
  MinProfitThreshold : float
}.

Record PolymarketLeaderboardEntry : Type := {
  Rank : string;
  ProxyWallet : string;
  UserName : string;
  Vol : float;
  PnL : float;
  ProfileImage : string
}.

Inductive Output : Type :=
| Log_fetching
| Log_no_entries
| Log_upsert_failed (wallet : string) (err : error)
| Log_rank_kept (rank userName : string) (pnl vol : float)
| Log_rank_below (rank userName : string) (pnl : float)
| Log_updated (count total : nat)
| Log_tracking (count : nat)
| Log_tracked (position : nat) (trader : string).

(** [0.5 + (entry.PnL / (entry.Vol + 1)) * 0.3], capped at 0.9, each operation
    rounded on its own; the two hexadecimal constants are the float64 values
    of 0.3 and 0.9. *)
Definition estimatedWinRate (entry : PolymarketLeaderboardEntry) : float :=
  let rate := (0.5 + (PnL entry / (Vol entry + 1)) * 0x1.3333333333333p-2)%float in
  if (0x1.ccccccccccccdp-1 <? rate)%float then 0x1.ccccccccccccdp-1%float else rate.

(** The [for _, entry := range entries] loop: the database, the count of
    stored traders and the output after it. *)
Fixpoint store_entries (cfg : Config) (entries : list PolymarketLeaderboardEntry)
    (db : DB) (count : nat) : DB * nat * list Output :=
  match entries with
  | [] => (db, count, [])
  | entry :: rest =>
    if (MinProfitThreshold cfg <=? PnL entry)%float then
      match UpsertTopTrader (ProxyWallet entry) (PnL entry) (estimatedWinRate entry) db with
      | (Some err, db) =>
        let '(db, count, out) := store_entries cfg rest db count in
        (db, count, Log_upsert_failed (ProxyWallet entry) err :: out)
      | (None, db) =>
        let '(db, count, out) := store_entries cfg rest db (S count) in
        (db, count,
         Log_rank_kept (Rank entry) (UserName entry) (PnL entry) (Vol entry) :: out)
      end
    else
      let '(db, count, out) := store_entries cfg rest db count in
      (db, count, Log_rank_below (Rank entry) (UserName entry) (PnL entry) :: out)
  end.

(** The lines [%d. %s] for the tracked traders, numbered from [idx + 1]. *)
Fixpoint log_tracked (idx : nat) (traders : list string) : list Output :=
  match traders with
  | [] => []
  | trader :: rest => Log_tracked (S idx) trader :: log_tracked (S idx) rest
  end.

(** [updateLeaderboardFromAPI]; [fetched] is the decoded answer of the ranking
    API, or the error that the request, its status or its decoding gave. *)
Definition updateLeaderboardFromAPI (cfg : Config)
    (fetched : error + list PolymarketLeaderboardEntry) (db : DB)
  : option error * DB * list Output :=
  match fetched with
  | inl err => (Some err, db, [Log_fetching])
  | inr [] => (None, db, [Log_fetching; Log_no_entries])
  | inr entries =>
    let '(db, count, out) := store_entries cfg entries db O in
    let out := Log_fetching :: out ++ [Log_updated count (length entries)] in
    match GetTopTraders (TopTradersCount cfg) db with
    | (inr (trader :: rest), db) =>
      let topTraders := trader :: rest in
      (None, db, out ++ Log_tracking (length topTraders) :: log_tracked O topTraders)
    | (_, db) => (None, db, out)
    end
  end.

(** *** The service loop *)

Inductive ServiceOutput : Type :=
| Service_starting
| From_update (line : Output)
| Failed_initial_update (err : error)
| Failed_update (err : error).

(** The case that a [select] of [Start] takes; [fetched] is the answer of the
    ranking API to the update that a tick starts. *)
Inductive Case : Type :=
| Done (err : error)
| TickerC (fetched : error + list PolymarketLeaderboardEntry).

Inductive Exit : Type :=
| Returned (err : error)
| Waiting.

(** The [for { select { ... } }] loop of [Start]. *)
Fixpoint serve (cfg : Config) (cases : list Case) (db : DB)
  : Exit * DB * list ServiceOutput :=
  match cases with
  | [] => (Waiting, db, [])
  | Done err :: _ => (Returned err, db, [])
  | TickerC fetched :: rest =>
    let '(failed, db, out) := updateLeaderboardFromAPI cfg fetched db in
    let report := match failed with
                  | Some err => [Failed_update err]
                  | None => []
                  end in
    let '(exit, db, out') := serve cfg rest db in
    (exit, db, map From_update out ++ report ++ out')
  end.

(** [Start]; [initial] is the answer of the ranking API to the first
    update. *)
Definition Start (cfg : Config) (initial : error + list PolymarketLeaderboardEntry)
    (cases : list Case) (db : DB) : Exit * DB * list ServiceOutput :=
  let '(failed, db, out) := updateLeaderboardFromAPI cfg initial db in
  let report := match failed with
                | Some err => [Failed_initial_update err]
                | None => []
                end in
  let '(exit, db, out') := serve cfg cases db in
  (exit, db, Service_starting :: map From_update out ++ report ++ out').

(** The entries that pass the profit threshold. *)
Definition kept (cfg : Config) (entries : list PolymarketLeaderboardEntry)
  : list PolymarketLeaderboardEntry :=
  List.filter (fun entry => (MinProfitThreshold cfg <=? PnL entry)%float) entries.

(** A row whose win rate is not above 0.9. *)
Definition capped (row : TopTraderRow) : Prop :=
  (0x1.ccccccccccccdp-1 <? r_win_rate row)%float = false.

End Ingestion.

(** ** The configuration *)

Module Configuration.

Record Config : Type := {
  DatabasePath : string;
  TopTradersCount : Z;
  MinProfitThreshold : float;
  CopyTradeMultiplier : float;
  TelegramBotToken : string;
  TelegramChatID : Z;
  PrivateKey : string;
  WalletAddress : string;
  PolygonRPCURL : string;
  DryRun : bool
}.

(** The "Set defaults" part of [Load], one assignment after the other. *)
Definition set_defaults (cfg : Config) : Config :=
  let databasePath :=
    if String.eqb (DatabasePath cfg) "" then "./data/lazytrader.db"
    else DatabasePath cfg in
  let topTradersCount :=
    if TopTradersCount cfg =? 0 then 10 else TopTradersCount cfg in
  let minProfitThreshold :=
    if (MinProfitThreshold cfg =? 0)%float then 1000%float
    else MinProfitThreshold cfg in
  let copyTradeMultiplier :=
    if (CopyTradeMultiplier cfg =? 0)%float then 0x1.999999999999ap-4%float
    else CopyTradeMultiplier cfg in
  let polygonRPCURL :=
    if String.eqb (PolygonRPCURL cfg) "" then "https://polygon-rpc.com"
    else PolygonRPCURL cfg in
  {| DatabasePath := databasePath; TopTradersCount := topTradersCount;
     MinProfitThreshold := minProfitThreshold;
     CopyTradeMultiplier := copyTradeMultiplier;
     TelegramBotToken := TelegramBotToken cfg;
     TelegramChatID := TelegramChatID cfg; PrivateKey := PrivateKey cfg;
     WalletAddress := WalletAddress cfg; PolygonRPCURL := polygonRPCURL;
     DryRun := DryRun cfg |}.

(** [Load]; [file] is the error of [os.ReadFile], or else the error of
    [yaml.Unmarshal] or the [Config] it fills.  The hexadecimal constant of
    [set_defaults] is the float64 value of 0.1. *)
Definition Load (file : error + (error + Config)) : error + Config :=
  match file with
  | inl err => inl (WrapError "failed to read config file" err)
  | inr (inl err) => inl (WrapError "failed to parse config" err)
  | inr (inr cfg) => inr (set_defaults cfg)
  end.

Definition Validate (c : Config) : option error :=
  if String.eqb (TelegramBotToken c) ""
  then Some (ErrorString "telegram_bot_token is required")
  else if TelegramChatID c =? 0
  then Some (ErrorString "telegram_chat_id is required")
  else if String.eqb (PrivateKey c) ""
  then Some (ErrorString "private_key is required")
  else if String.eqb (WalletAddress c) ""
  then Some (ErrorString "wallet_address is required")
  else None.

End Configuration.

(** ** The words of the specification, and sample inputs *)

Module Spec.

Import Listener.

(** One side of a fill: the party, the asset it gave and the amount filled. *)
Record Leg : Type := {
  party : Address;
  asset : Z;
  filled : Z
}.

Definition maker_leg (event : OrderFilledEvent) : Leg :=
  {| party := Maker event; asset := MakerAssetId event;
     filled := MakerAmountFilled event |}.

Definition taker_leg (event : OrderFilledEvent) : Leg :=
  {| party := Taker event; asset := TakerAssetId event;
     filled := TakerAmountFilled event |}.

(** The tracked party of the specification, the maker first, and its counter
    party. *)
Definition own_leg (event : OrderFilledEvent) (makerTracked : bool) : Leg :=
  if makerTracked then maker_leg event else taker_leg event.

Definition counter_leg (event : OrderFilledEvent) (makerTracked : bool) : Leg :=
  if makerTracked then taker_leg event else maker_leg event.

(** The price as the specification words it:
    [(counterAmountFilled * 1_000_000) / ownAmountFilled] for a Buy when
    [ownAmountFilled > 0], and no price otherwise. *)
Definition spec_price (side : string) (own counter : Leg) : option Z :=
  if String.eqb side "BUY" && (0 <? filled own)
  then Some (filled counter * 1000000 / filled own)
  else None.

End Spec.

Module Samples.

Import Listener.

(** An address in hexadecimal before EIP-55 raises any letter: what
    [Address.Hex] gives on the addresses that have no letter among their
    digits, such as the ones below. *)
Definition hex_digit (n : Z) : ascii :=
  nth (Z.to_nat n) (list_ascii_of_string "0123456789abcdef") "0"%char.

Fixpoint hex_digits (n : nat) (v : Z) (acc : string) : string :=
  match n with
  | O => acc
  | S n' => hex_digits n' (v / 16) (String (hex_digit (v mod 16)) acc)
  end.

Definition plainHex (a : Address) : string :=
  String "0" (String "x" (hex_digits 40 a "")).

Definition alice : Address := 0x11.
Definition bob : Address := 0x22.

(** The maker gives 10,000,000 of the cash leg for 20 of token 77. *)
Definition maker_buys : OrderFilledEvent :=
  {| OrderHash := 5; Maker := alice; Taker := bob;
     MakerAssetId := 0; TakerAssetId := 77;
     MakerAmountFilled := 10000000; TakerAmountFilled := 20; Fee := 0 |}.

(** The taker gives 10,000,000 of the cash leg for 20 of token 77. *)
Definition taker_buys : OrderFilledEvent :=
  {| OrderHash := 6; Maker := alice; Taker := bob;
     MakerAssetId := 77; TakerAssetId := 0;
     MakerAmountFilled := 20; TakerAmountFilled := 10000000; Fee := 0 |}.

(** A listener that tracks nobody; 1 and 2 stand for the two Keccak-256
    digests that [NewPolymarketListener] computes. *)
Definition nobody : PolymarketListener :=
  {| TopTradersCount := 10; orderFilledSig := 1; ordersMatchedSig := 2;
     topTraders := ∅ |}.

(** A listener that tracks the zero address, the [Maker] and [Taker] that
    every event has after [UnpackIntoInterface]. *)
Definition zero_tracker : PolymarketListener :=
  {| TopTradersCount := 10; orderFilledSig := 1; ordersMatchedSig := 2;
     topTraders := {[ "0x0000000000000000000000000000000000000000" := true ]} |}.

Definition x00 : Byte.byte := Byte.x00.

(** The 32-byte word of a number below 256. *)
Definition small_word (b : Byte.byte) : list Byte.byte := repeat x00 31 ++ [b].

(** A fill whose payload has the five words 0, 77, 10,000,000 (0x989680),
    20 and 0. *)
Definition fill_log : Log :=
  {| LogAddress := 0; Topics := [1; 5; 0x11; 0x22];
     Data := small_word x00 ++ small_word Byte.x4d
             ++ (repeat x00 29 ++ [Byte.x98; Byte.x96; Byte.x80])
             ++ small_word Byte.x14 ++ small_word x00;
     BlockNumber := 9; LogTxHash := 7; Index := 0 |}.

(** A fill whose payload is cut after its first word. *)
Definition short_log : Log :=
  {| LogAddress := 0; Topics := [1; 5; 0x11; 0x22]; Data := small_word x00;
     BlockNumber := 9; LogTxHash := 7; Index := 0 |}.

Definition matched_log : Log :=
  {| LogAddress := 0; Topics := [2; 6]; Data := []; BlockNumber := 9;
     LogTxHash := 8; Index := 1 |}.

Definition no_topic_log : Log :=
  {| LogAddress := 0; Topics := []; Data := []; BlockNumber := 9;
     LogTxHash := 8; Index := 2 |}.

Definition short_error : error :=
  WrapError "failed to unpack OrderFilled"
    (ErrorString "abi: cannot marshal in to go type: length insufficient").

(** A fill with no payload at all. *)
Definition bare_log : Log :=
  {| LogAddress := 0; Topics := [1; 5; 0x11; 0x22]; Data := [];
     BlockNumber := 9; LogTxHash := 7; Index := 0 |}.

Definition bare_error : error :=
  WrapError "failed to unpack OrderFilled"
    (ErrorString "abi: attempting to unmarshall an empty string while arguments are expected").

(** go-ethereum's [bind.ErrNoChainID]. *)
Definition no_chain_id : error := ErrorString "no chain id specified".

(** A request to buy 10 of token 77 at 0.5. *)
Definition request : Executor.TradeRequest :=
  {| Executor.MarketID := "market"; Executor.TokenID := "77";
     Executor.Outcome := "YES"; Executor.Side := "buy";
     Executor.Amount := 10%float; Executor.Price := 0.5%float |}.

(** The fill of [fill_log] under other topics. *)
Definition fill_log_other_topics : Log :=
  {| LogAddress := 0; Topics := [1]; Data := Data fill_log;
     BlockNumber := 9; LogTxHash := 7; Index := 0 |}.

(** The taker gives 1 of the cash leg for 2,000,000 of token 77. *)
Definition dust_buys : OrderFilledEvent :=
  {| OrderHash := 6; Maker := alice; Taker := bob;
     MakerAssetId := 77; TakerAssetId := 0;
     MakerAmountFilled := 2000000; TakerAmountFilled := 1; Fee := 0 |}.

(** A ledger whose ranking has two traders, the second ahead of the first. *)
Definition ranked : Database.DB :=
  {| Database.positions := []; Database.positions_seq := 0;
     Database.trades := []; Database.trades_seq := 0;
     Database.top_traders :=
       [{| Database.r_address := "0xbb"; Database.r_total_pnl := 2000%float;
           Database.r_win_rate := 0.5%float |};
        {| Database.r_address := "0xcc"; Database.r_total_pnl := 3000%float;
           Database.r_win_rate := 0.75%float |}];
     Database.faults := [] |}.

Definition thousand : Ingestion.Config :=
  {| Ingestion.TopTradersCount := 10; Ingestion.MinProfitThreshold := 1000%float |}.

(** An entry below the threshold of [thousand]. *)
Definition minnow : Ingestion.PolymarketLeaderboardEntry :=
  {| Ingestion.Rank := "7"; Ingestion.ProxyWallet := "0xdd";
     Ingestion.UserName := "minnow"; Ingestion.Vol := 500%float;
     Ingestion.PnL := 10%float; Ingestion.ProfileImage := "" |}.

(** An entry above it. *)
Definition whale : Ingestion.PolymarketLeaderboardEntry :=
  {| Ingestion.Rank := "1"; Ingestion.ProxyWallet := "0xee";
     Ingestion.UserName := "whale"; Ingestion.Vol := 50000%float;
     Ingestion.PnL := 5000%float; Ingestion.ProfileImage := "" |}.

End Samples.

(** * Properties *)

(** ** Signal extraction *)

Section Signals.

Import Listener Spec.

Variable Hex : Address -> string.

(** The signal before the price is set. *)
Lemma extractTradeSignal_order event makerIsTop takerIsTop :
  makerIsTop || takerIsTop = true ->
  let own := own_leg event makerIsTop in
  let counter := counter_leg event makerIsTop in
  let s := extractTradeSignal Hex event makerIsTop takerIsTop in
  Trader s = Hex (party own) /\
  Side s = (if asset own =? 0 then "BUY" else "SELL") /\
  TokenID s = Some (if asset own =? 0 then asset counter else asset own) /\
  Amount s = Some (if asset own =? 0 then filled counter else filled own).
Proof.
  intros Htracked. unfold extractTradeSignal, own_leg, counter_leg.
  destruct makerIsTop; [| destruct takerIsTop; [| discriminate Htracked]]; cbn;
    repeat match goal with
      | |- context [?a =? 0] => destruct (a =? 0); cbn
      | |- context [0 <? ?a] => destruct (0 <? a); cbn
      end;
    repeat split.
Qed.

(** C4.  When the maker or the taker is tracked, the signal is the tracked
    party's, the maker's if both are; a party whose own asset id is 0 buys the
    counter party's asset in the counter party's filled amount, and any other
    party sells its own asset in its own filled amount. *)
Theorem extractTradeSignal_directional event makerIsTop takerIsTop :
  makerIsTop || takerIsTop = true ->
  let own := own_leg event makerIsTop in
  let counter := counter_leg event makerIsTop in
  let s := extractTradeSignal Hex event makerIsTop takerIsTop in
  Trader s = Hex (party own) /\
  (asset own = 0 ->
   Side s = "BUY" /\ TokenID s = Some (asset counter) /\ Amount s = Some (filled counter)) /\
  (asset own <> 0 ->
   Side s = "SELL" /\ TokenID s = Some (asset own) /\ Amount s = Some (filled own)).
Proof.
  intros Htracked own counter s.
  destruct (extractTradeSignal_order event makerIsTop takerIsTop Htracked)
    as (Htrader & Hside & Htoken & Hamount).
  fold own counter s in Htrader, Hside, Htoken, Hamount.
  split; [exact Htrader |].
  destruct (Z.eqb_spec (asset own) 0) as [Hzero | Hnonzero]; split; intros H;
    try contradiction; auto.
Qed.

(** C5, as the code has it.  The price is set for a Buy only, and is always
    [(TakerAmountFilled * 1_000_000) / MakerAmountFilled], set when
    [MakerAmountFilled > 0]: for a tracked maker this is the counter amount over
    the own amount, for a taker tracked alone it is the own amount over the
    counter amount.  A Sell has no price, and the maker of the scenario, who
    gives 10,000,000 for 20 of token 77, gets the price 2. *)
Theorem extractTradeSignal_price event makerIsTop takerIsTop :
  let s := extractTradeSignal Hex event makerIsTop takerIsTop in
  Price s =
    (if String.eqb (Side s) "BUY" && (0 <? MakerAmountFilled event)
     then Some (TakerAmountFilled event * 1000000 / MakerAmountFilled event)
     else None) /\
  (Side s = "SELL" -> Price s = None) /\
  (makerIsTop = true ->
   Price s = spec_price (Side s) (own_leg event true) (counter_leg event true)) /\
  (makerIsTop = false ->
   Price s = spec_price (Side s) (counter_leg event false) (own_leg event false)) /\
  (forall maker taker orderHash fee,
     extractTradeSignal Hex
       {| OrderHash := orderHash; Maker := maker; Taker := taker;
          MakerAssetId := 0; TakerAssetId := 77;
          MakerAmountFilled := 10000000; TakerAmountFilled := 20; Fee := fee |}
       true takerIsTop =
     {| Trader := Hex maker; Side := "BUY"; MarketID := ""; TokenID := Some 77;
        Amount := Some 20; Price := Some 2; TxHash := "" |}).
Proof.
  cbv zeta. unfold spec_price, own_leg, counter_leg, extractTradeSignal.
  repeat split; try (intros; subst);
    try (destruct makerIsTop); try (destruct takerIsTop); cbn;
    repeat match goal with
      | |- context [?a =? 0] => destruct (a =? 0); cbn
      | |- context [0 <? ?a] => destruct (0 <? a); cbn
      | H : context [?a =? 0] |- _ => destruct (a =? 0); cbn in H
      | H : context [0 <? ?a] |- _ => destruct (0 <? a); cbn in H
      end;
    try reflexivity; try discriminate.
Qed.

End Signals.

(** A tracked maker who buys. *)
Lemma extractTradeSignal_directional_witness :
  true || false = true /\
  let s := Listener.extractTradeSignal Samples.plainHex Samples.maker_buys true false in
  Listener.Trader s = "0x0000000000000000000000000000000000000011" /\
  Listener.Side s = "BUY" /\
  Listener.TokenID s = Some 77 /\
  Listener.Amount s = Some 20.
Proof.
  split; [reflexivity |].
  destruct (extractTradeSignal_directional Samples.plainHex Samples.maker_buys
              true false eq_refl) as (Htrader & Hbuy & _).
  destruct (Hbuy eq_refl) as (Hside & Htoken & Hamount).
  repeat split; assumption.
Defined.

(** C5, as the specification has it, fails for a taker who is tracked alone and
    buys: the taker gives 10,000,000 for 20, the specification's price is
    [20 * 1_000_000 / 10_000_000 = 2], the code's is
    [10_000_000 * 1_000_000 / 20]. *)
Lemma extractTradeSignal_price_counterexample :
  let s := Listener.extractTradeSignal Samples.plainHex Samples.taker_buys false true in
  Listener.Side s = "BUY" /\
  Spec.spec_price (Listener.Side s) (Spec.own_leg Samples.taker_buys false)
    (Spec.counter_leg Samples.taker_buys false) = Some 2 /\
  Listener.Price s = Some 500000000000.
Proof. repeat split. Qed.

(** ** Logs, blocks and the watch loop *)

(** The fill of the samples, seen by a listener that tracks the zero
    address: both parties read as the zero address, the maker side is taken. *)
Example processLog_fill :
  Listener.processLog Samples.plainHex Samples.zero_tracker Samples.fill_log =
  ([Listener.Println_topics [1; 5; 0x11; 0x22];
    Listener.Log_activity_detected;
    Listener.Log_maker "0x00000000" true;
    Listener.Log_taker "0x00000000" true;
    Listener.Log_maker_asset 0;
    Listener.Log_taker_asset 77;
    Listener.Log_maker_amount 10000000;
    Listener.Log_taker_amount 20;
    Listener.Log_tx 7;
    Listener.Printf_signal
      {| Listener.Trader := "0x0000000000000000000000000000000000000000";
         Listener.Side := "BUY"; Listener.MarketID := "";
         Listener.TokenID := Some 77; Listener.Amount := Some 20;
         Listener.Price := Some 2; Listener.TxHash := "" |};
    Listener.Log_storing "0x00000000" "BUY" (Some 77) (Some 20)],
   Listener.Ret None).
Proof. vm_compute. reflexivity. Qed.

Example processLog_not_tracked :
  Listener.processLog Samples.plainHex Samples.nobody Samples.fill_log =
  ([Listener.Println_topics [1; 5; 0x11; 0x22]; Listener.Log_not_top_trader],
   Listener.Ret None).
Proof. vm_compute. reflexivity. Qed.

Section Watching.

Import Listener.

Variable Hex : Address -> string.

Lemma bind_ret {A B : Type} (out : list Output) (a : A) (k : A -> M B) :
  ((out, Ret a) : M A) ≫= k = (out ++ (k a).1, (k a).2).
Proof. unfold mbind, M_bind. destruct (k a); reflexivity. Qed.

Lemma bind_panicked {A B : Type} (out : list Output) (p : panic) (k : A -> M B) :
  ((out, Panicked p) : M A) ≫= k = (out, Panicked p).
Proof. reflexivity. Qed.

Lemma returns_ret {A : Type} (a : A) : returns (mret a : M A).
Proof. exists [], a. reflexivity. Qed.

Lemma returns_bind {A B : Type} (m : M A) (k : A -> M B) :
  returns m -> (forall a, returns (k a)) -> returns (m ≫= k).
Proof.
  intros (out & a & ->) Hk. destruct (Hk a) as (out' & b & Hb).
  exists (out ++ out'), b. rewrite bind_ret, Hb. reflexivity.
Qed.

Lemma returns_emit (x : Output) : returns (emit x).
Proof. exists [x], tt. reflexivity. Qed.

Lemma returns_slice10 (s : string) :
  (10 <= String.length s)%nat -> returns (slice10 s).
Proof.
  intros Hlen. unfold slice10, slice_to.
  destruct (Nat.leb_spec 10 (String.length s)) as [_ | Hlt]; [| lia].
  apply returns_ret.
Qed.

Section WithLongHex.

(** [Address.Hex] gives "0x" and forty digits. *)
Hypothesis Hex_length : forall a, (10 <= String.length (Hex a))%nat.

Lemma returns_storeTradeSignal event makerIsTop takerIsTop tx :
  makerIsTop || takerIsTop = true ->
  returns (storeTradeSignal (extractTradeSignal Hex event makerIsTop takerIsTop) tx).
Proof.
  intros Htracked. unfold storeTradeSignal.
  destruct (extractTradeSignal_order Hex event makerIsTop takerIsTop Htracked)
    as (-> & _).
  apply returns_bind; [apply returns_slice10, Hex_length |].
  intros prefix. apply returns_bind; [apply returns_emit |].
  intros _. apply returns_ret.
Qed.

Lemma returns_processOrderFilled l vLog : returns (processOrderFilled Hex l vLog).
Proof.
  unfold processOrderFilled.
  destruct (UnpackIntoInterface (Data vLog)) as [err | event]; [apply returns_ret |].
  set (event' := if (2 <=? length (Topics vLog))%nat then _ else _).
  destruct (isTop l (ToLower (Hex (Maker event')))) eqn:Hmaker,
           (isTop l (ToLower (Hex (Taker event')))) eqn:Htaker; cbn [negb andb];
    try (apply returns_bind; [apply returns_emit | intros _; apply returns_ret]);
    (apply returns_bind; [apply returns_emit | intros _];
     apply returns_bind; [apply returns_slice10, Hex_length | intros ?];
     apply returns_bind; [apply returns_emit | intros _];
     apply returns_bind; [apply returns_slice10, Hex_length | intros ?];
     do 7 (apply returns_bind; [apply returns_emit | intros _]);
     apply returns_storeTradeSignal; reflexivity).
Qed.

Lemma returns_processLog_topics l vLog :
  Topics vLog <> [] -> returns (processLog Hex l vLog).
Proof.
  intros Htopics. unfold processLog.
  apply returns_bind; [apply returns_emit | intros _].
  destruct (Topics vLog) as [| topic0 topics]; [contradiction |].
  destruct (topic0 =? orderFilledSig l); [apply returns_processOrderFilled |].
  destruct (topic0 =? ordersMatchedSig l); [| apply returns_ret].
  unfold processOrdersMatched.
  apply returns_bind; [apply returns_emit | intros _; apply returns_ret].
Qed.

(** C10.  [processLog] returns exactly on the logs that have a topic: on a log
    with no topic it prints the empty topic list and then panics, the index 0
    being out of the range of a list of length 0. *)
Theorem processLog_needs_topic l vLog :
  (returns (processLog Hex l vLog) <-> Topics vLog <> []) /\
  (Topics vLog = [] ->
   processLog Hex l vLog = ([Println_topics []], Panicked (IndexOutOfRange 0 0))).
Proof.
  assert (Hempty : Topics vLog = [] ->
          processLog Hex l vLog = ([Println_topics []], Panicked (IndexOutOfRange 0 0))).
  { intros Htopics. unfold processLog. rewrite Htopics. reflexivity. }
  split; [| exact Hempty].
  split; [| apply returns_processLog_topics].
  intros (out & r & Hret) Htopics. rewrite (Hempty Htopics) in Hret. discriminate Hret.
Qed.

End WithLongHex.

(** *** The loop over the logs of a block *)

Lemma processLogs_cons_nil l vLog rest out :
  processLog Hex l vLog = (out, Ret None) ->
  processLogs Hex l (vLog :: rest) =
  (out ++ (processLogs Hex l rest).1, (processLogs Hex l rest).2).
Proof. intros Hlog. cbn [processLogs]. rewrite Hlog, bind_ret. reflexivity. Qed.

Lemma processLogs_cons_error l vLog rest out e :
  processLog Hex l vLog = (out, Ret (Some e)) ->
  processLogs Hex l (vLog :: rest) = (out ++ [Log_error_processing_log e], Ret tt).
Proof. intros Hlog. cbn [processLogs]. rewrite Hlog, bind_ret. reflexivity. Qed.

Lemma processLogs_until_error l pre bad post out e :
  Forall (fun vLog => (processLog Hex l vLog).2 = Ret None) pre ->
  processLog Hex l bad = (out, Ret (Some e)) ->
  processLogs Hex l (pre ++ bad :: post) =
  (outputs Hex l pre ++ out ++ [Log_error_processing_log e], Ret tt).
Proof.
  intros Hpre Hbad. induction Hpre as [| vLog pre Hlog _ IH]; cbn [app].
  - apply processLogs_cons_error, Hbad.
  - destruct (processLog Hex l vLog) as [o r] eqn:Hv. cbn in Hlog. subst r.
    rewrite (processLogs_cons_nil _ _ _ _ Hv), IH.
    unfold outputs. cbn [map concat]. rewrite Hv. cbn [fst snd].
    rewrite <- app_assoc. reflexivity.
Qed.

(** C6, as the code has it.  The logs before the first failing log are
    processed, the failure is logged, and the loop leaves the block there: the
    logs after the failing one are not processed.  The failure is not fatal:
    [processBlock] returns no error and the watch loop goes on to the next
    case. *)
Theorem processBlock_stops_at_failing_log l number pre bad post out e :
  Forall (fun vLog => (processLog Hex l vLog).2 = Ret None) pre ->
  processLog Hex l bad = (out, Ret (Some e)) ->
  let written := outputs Hex l pre ++ out ++ [Log_error_processing_log e] in
  processBlock Hex l number (inr (pre ++ bad :: post)) = (written, Ret None) /\
  forall cases,
    watch Hex l (Header number (inr (pre ++ bad :: post)) :: cases) =
    (written ++ (watch Hex l cases).1, (watch Hex l cases).2).
Proof.
  intros Hpre Hbad written.
  assert (Hblock : processBlock Hex l number (inr (pre ++ bad :: post))
                   = (written, Ret None)).
  { unfold processBlock. rewrite (processLogs_until_error _ _ _ _ _ _ Hpre Hbad).
    rewrite bind_ret. cbn. rewrite ?app_nil_r. reflexivity. }
  split; [exact Hblock |].
  intros cases. cbn [watch]. rewrite Hblock, !bind_ret. cbn.
  rewrite ?app_nil_r. destruct (watch Hex l cases). reflexivity.
Qed.

(** *** The watch loop *)

Lemma watch_app l cases cases' out :
  watch Hex l cases = (out, Ret Waiting) ->
  watch Hex l (cases ++ cases') =
  (out ++ (watch Hex l cases').1, (watch Hex l cases').2).
Proof.
  revert out. induction cases as [| c cases IH]; intros out Hwatch; cbn [app].
  - cbn in Hwatch. injection Hwatch as <-. destruct (watch Hex l cases'); reflexivity.
  - destruct c as [err | err | number filtered]; cbn [watch] in *;
      try discriminate Hwatch.
    destruct (processBlock Hex l number filtered) as [ob [r | p]];
      [| rewrite bind_panicked in Hwatch; discriminate Hwatch].
    rewrite bind_ret in *.
    set (report := match r with Some e => _ | None => _ end) in *.
    destruct report as [oe [[] | p]];
      [| rewrite bind_panicked in Hwatch; discriminate Hwatch].
    rewrite bind_ret in *. cbn [fst snd] in *.
    destruct (watch Hex l cases) as [ow rw] eqn:Hrest. cbn [fst snd] in Hwatch.
    injection Hwatch as <- ->. rewrite (IH ow eq_refl). cbn [fst snd].
    rewrite !app_assoc. reflexivity.
Qed.

(** C7, as the code has it.  When the subscription fails, the watch loop logs
    the error and returns it: [Start] ends there, it does not subscribe again,
    and the cases that would follow are never taken.  When the subscription
    cannot be made in the first place, [Start] returns that error at once. *)
Theorem Start_returns_on_subscription_error l before err after out :
  watch Hex l before = (out, Ret Waiting) ->
  Start Hex l None (before ++ SubErr err :: after) =
  (Log_starting :: out ++ [Log_subscription_error err], Ret (Returned err)) /\
  forall refused cases,
    Start Hex l (Some refused) cases =
    ([Log_starting],
     Ret (Returned (Some (WrapError "failed to subscribe to new heads" refused)))).
Proof.
  intros Hbefore. split; [| reflexivity]. unfold Start.
  rewrite (watch_app _ _ (SubErr err :: after) _ Hbefore). reflexivity.
Qed.

End Watching.

Lemma plainHex_length a : (10 <= String.length (Samples.plainHex a))%nat.
Proof. unfold Samples.plainHex. cbn. lia. Qed.

(** A fill is processed to its end; a log with no topic is not. *)
Lemma processLog_needs_topic_witness :
  Listener.returns
    (Listener.processLog Samples.plainHex Samples.zero_tracker Samples.fill_log) /\
  Listener.processLog Samples.plainHex Samples.nobody Samples.no_topic_log =
  ([Listener.Println_topics []], Listener.Panicked (IndexOutOfRange 0 0)).
Proof.
  split.
  - apply (processLog_needs_topic Samples.plainHex plainHex_length
             Samples.zero_tracker Samples.fill_log).
    discriminate.
  - apply (processLog_needs_topic Samples.plainHex plainHex_length
             Samples.nobody Samples.no_topic_log).
    reflexivity.
Defined.

(** A block of three logs whose second log is cut short. *)
Lemma processBlock_stops_at_failing_log_witness :
  Listener.processBlock Samples.plainHex Samples.nobody 9
    (inr [Samples.matched_log; Samples.short_log; Samples.matched_log]) =
  ([Listener.Println_topics [2; 6]; Listener.Log_orders_matched 8;
    Listener.Println_topics [1; 5; 0x11; 0x22];
    Listener.Log_error_processing_log Samples.short_error],
   Listener.Ret None).
Proof.
  refine (proj1 (processBlock_stops_at_failing_log Samples.plainHex Samples.nobody 9
                   [Samples.matched_log] Samples.short_log [Samples.matched_log]
                   [Listener.Println_topics [1; 5; 0x11; 0x22]] Samples.short_error
                   _ _)).
  - repeat constructor.
  - reflexivity.
Defined.

(** C6, as the specification has it, fails on a block of two logs whose
    first log has no payload: the second log, which on its own is processed
    and logged, is left unprocessed. *)
Lemma processBlock_skips_rest_counterexample :
  Listener.processBlock Samples.plainHex Samples.nobody 9
    (inr [Samples.bare_log; Samples.matched_log]) =
  ([Listener.Println_topics [1; 5; 0x11; 0x22];
    Listener.Log_error_processing_log Samples.bare_error],
   Listener.Ret None) /\
  Listener.processLog Samples.plainHex Samples.nobody Samples.matched_log =
  ([Listener.Println_topics [2; 6]; Listener.Log_orders_matched 8],
   Listener.Ret None).
Proof. split; reflexivity. Qed.

(** One block, then the subscription fails, then a block that is never seen. *)
Lemma Start_returns_on_subscription_error_witness :
  Listener.Start Samples.plainHex Samples.nobody None
    ([Listener.Header 9 (inr [Samples.matched_log])]
     ++ Listener.SubErr (Some (ErrorString "EOF"))
     :: [Listener.Header 10 (inr [Samples.matched_log])]) =
  ([Listener.Log_starting; Listener.Println_topics [2; 6];
    Listener.Log_orders_matched 8;
    Listener.Log_subscription_error (Some (ErrorString "EOF"))],
   Listener.Ret (Listener.Returned (Some (ErrorString "EOF")))).
Proof.
  refine (proj1 (Start_returns_on_subscription_error Samples.plainHex Samples.nobody
                   [Listener.Header 9 (inr [Samples.matched_log])]
                   (Some (ErrorString "EOF"))
                   [Listener.Header 10 (inr [Samples.matched_log])]
                   [Listener.Println_topics [2; 6]; Listener.Log_orders_matched 8] _)).
  reflexivity.
Defined.

(** C7, as the specification has it, fails: after a subscription error
    [Start] has returned, and the block that follows, which is processed when
    no error precedes it, is not. *)
Lemma Start_stops_counterexample :
  Listener.Start Samples.plainHex Samples.nobody None
    [Listener.SubErr (Some (ErrorString "EOF"));
     Listener.Header 10 (inr [Samples.matched_log])] =
  ([Listener.Log_starting; Listener.Log_subscription_error (Some (ErrorString "EOF"))],
   Listener.Ret (Listener.Returned (Some (ErrorString "EOF")))) /\
  Listener.Start Samples.plainHex Samples.nobody None
    [Listener.Header 10 (inr [Samples.matched_log])] =
  ([Listener.Log_starting; Listener.Println_topics [2; 6];
    Listener.Log_orders_matched 8],
   Listener.Ret Listener.Waiting).
Proof. split; reflexivity. Qed.

(** ** The tracked set *)

Section Tracking.

Import Listener.

Lemma fill_lookup traders : forall (m : gmap string bool) key,
  fill m traders !! key =
  if decide (key ∈ map ToLower traders) then Some true else m !! key.
Proof.
  unfold fill. induction traders as [| trader traders IH]; intros m key; cbn.
  - case_decide as Hin; [| reflexivity]. inversion Hin.
  - rewrite IH. repeat case_decide; try reflexivity.
    + exfalso. match goal with H : ¬ _ |- _ => apply H end. by right.
    + rewrite lookup_insert. case_decide as Heq; [reflexivity |].
      match goal with H : _ ∈ _ :: _ |- _ => inversion H; subst end; congruence.
    + rewrite lookup_insert_ne; [reflexivity |].
      intros <-. match goal with H : ¬ _ ∈ _ :: _ |- _ => apply H end. by left.
Qed.

Lemma isTop_fill traders key :
  forall l, isTop (with_topTraders (fill ∅ traders) l) key = true
            <-> key ∈ map ToLower traders.
Proof.
  intros l. unfold isTop. cbn. rewrite fill_lookup.
  case_decide as Hin; cbn; [tauto |].
  rewrite lookup_empty. cbn. split; [discriminate | tauto].
Qed.

(** C8, as the code has it.  A tick whose query fails leaves the tracked set
    as it was.  A tick whose query succeeds replaces the set by the lower-cased
    fetched addresses, whatever it was before: when the fetched list is empty
    the new set is empty.  On the ingestion side, an empty leaderboard from the
    ranking API writes nothing to the ledger. *)
Theorem refresh_replaces_tracked_set l :
  (forall err, refresh l (inl err) = (l, [Log_failed_top_traders err])) /\
  (forall traders key,
     isTop (refresh l (inr traders)).1 key = true <-> key ∈ map ToLower traders) /\
  refresh l (inr []) = (with_topTraders ∅ l, [Log_updated_top_traders 0]) /\
  updateTopTraders l [TickC (inr [])] =
    (with_topTraders ∅ l, [Log_updated_top_traders 0]) /\
  (forall cfg db,
     Ingestion.updateLeaderboardFromAPI cfg (inr []) db =
     (None, db, [Ingestion.Log_fetching; Ingestion.Log_no_entries])).
Proof.
  repeat split; try (intros H; revert H); cbn [refresh fst]; apply isTop_fill.
Qed.




End Tracking.

(** C8, as the specification has it, fails: a tick that fetches an empty list
    replaces the set that tracks the zero address by the empty set. *)
Lemma refresh_empty_counterexample :
  let zero := "0x0000000000000000000000000000000000000000" in
  let l' := (Listener.refresh Samples.zero_tracker (inr [])).1 in
  Listener.isTop Samples.zero_tracker zero = true /\
  Listener.topTraders l' = ∅ /\
  Listener.isTop l' zero = false.
Proof. repeat split. Qed.


(** ** The ledger and the execution engine *)

Section Executing.

Import Database Executor.

Lemma next_rowid_fresh seq ids x : In x ids -> x < next_rowid seq ids.
Proof.
  unfold next_rowid. induction ids as [| y ids IH]; cbn; intros Hin; [contradiction |].
  destruct Hin as [-> | Hin]; [lia |]. specialize (IH Hin). lia.
Qed.

Lemma set_status_fresh tradeID status txHash rows :
  (forall row, In row rows -> t_id row < tradeID) ->
  map (set_status tradeID status txHash) rows = rows.
Proof.
  intros Hfresh. induction rows as [| row rows IH]; cbn; [reflexivity |].
  rewrite IH by (intros r Hr; apply Hfresh; right; exact Hr).
  unfold set_status. destruct (Z.eqb_spec (t_id row) tradeID) as [Heq | _]; [| reflexivity].
  specialize (Hfresh row (or_introl eq_refl)). lia.
Qed.

(** An update of the trade that has just been inserted reaches that row only. *)
Lemma set_status_new status txHash seq rows row :
  t_id row = next_rowid seq (map t_id rows) ->
  map (set_status (next_rowid seq (map t_id rows)) status txHash) (rows ++ [row]) =
  rows ++ [set_status (t_id row) status txHash row].
Proof.
  intros Hid. rewrite map_app, <- Hid. cbn [map]. f_equal.
  apply set_status_fresh. intros r Hr. rewrite Hid.
  apply next_rowid_fresh, in_map, Hr.
Qed.

(** What [ExecuteTrade] returns and leaves in the two tables, by the answers
    of the driver to its three statements and by the outcome of the
    submission. *)
Lemma ExecuteTrade_cases transactor req db :
  let r := ExecuteTrade transactor req db in
  match fault_at 0 db, fault_at 1 db with
  | Some e, _ =>
    r.1.1 = Some (WrapError "failed to create position" e) /\
    positions r.1.2 = positions db /\ trades r.1.2 = trades db
  | None, Some e =>
    r.1.1 = Some (WrapError "failed to create trade" e) /\
    positions r.1.2 = positions db ++ [position_row req db] /\
    trades r.1.2 = trades db
  | None, None =>
    r.1.1 = match transactor with
            | Some e => Some (WrapError "failed to submit trade" e)
            | None => None
            end /\
    positions r.1.2 = positions db ++ [position_row req db] /\
    trades r.1.2 =
    trades db ++ [match fault_at 2 db, transactor with
                  | Some _, _ => trade_row req db "pending" None
                  | None, Some _ => trade_row req db "failed" (Some "")
                  | None, None => trade_row req db "confirmed" (Some mockTxHash)
                  end]
  end.
Proof.
  unfold ExecuteTrade, CreatePosition, CreateTrade, UpdateTradeStatus, submitTrade,
    next_fault, fault_at.
  destruct db as [ps pseq ts tseq tops script].
  destruct script as [| [e1 |] [| [e2 |] [| [e3 |] script]]]; cbn;
    try (repeat split; fail);
    destruct transactor as [e |]; cbn; repeat split;
    try (rewrite (set_status_new _ _ tseq ts) by reflexivity;
         unfold set_status; cbn; rewrite Z.eqb_refl; reflexivity).
Qed.

Lemma ExecuteTrade_no_faults transactor req db :
  faults db = [] ->
  faults (ExecuteTrade transactor req db).1.2 = [] /\
  length (positions (ExecuteTrade transactor req db).1.2) = S (length (positions db)) /\
  length (trades (ExecuteTrade transactor req db).1.2) = S (length (trades db)).
Proof.
  destruct db as [ps pseq ts tseq tops script]. cbn. intros ->.
  unfold ExecuteTrade, CreatePosition, CreateTrade, UpdateTradeStatus, submitTrade,
    next_fault.
  destruct transactor; cbn; rewrite ?length_map, !length_app; cbn;
    repeat split; lia.
Qed.

(** C1, as the code has it.  [ExecuteTrade] makes no idempotency check and a
    trade row holds no idempotency key: while the driver does not fail, every
    delivery of a request inserts one position and one trade, so [n]
    deliveries of the same request leave [n] more rows in each table. *)
Theorem deliver_inserts_every_time n transactor req : forall db,
  faults db = [] ->
  length (trades (deliver n transactor req db)) = (length (trades db) + n)%nat /\
  length (positions (deliver n transactor req db)) = (length (positions db) + n)%nat.
Proof.
  induction n as [| n IH]; intros db Hfaults; cbn [deliver].
  - split; lia.
  - destruct (ExecuteTrade_no_faults transactor req db Hfaults) as (Hf & Hp & Ht).
    destruct (IH _ Hf) as [IHt IHp]. rewrite IHt, IHp, Hp, Ht. split; lia.
Qed.

(** C2, as the code has it.  The two inserts are two statements.  If the first
    fails nothing is written; if both succeed the position and its trade are
    written, the trade pointing at the position; if the second fails the
    position stays in the ledger with no trade.  A trade is never written
    without its position. *)
Theorem ExecuteTrade_persists transactor req db :
  let r := ExecuteTrade transactor req db in
  (exists e, fault_at 0 db = Some e /\
     r.1.1 = Some (WrapError "failed to create position" e) /\
     positions r.1.2 = positions db /\ trades r.1.2 = trades db) \/
  (fault_at 0 db = None /\ fault_at 1 db = None /\
   positions r.1.2 = positions db ++ [position_row req db] /\
   exists t,
     trades r.1.2 = trades db ++ [t] /\
     t_position_id t = p_id (position_row req db)) \/
  (fault_at 0 db = None /\
   exists e, fault_at 1 db = Some e /\
     r.1.1 = Some (WrapError "failed to create trade" e) /\
     positions r.1.2 = positions db ++ [position_row req db] /\
     trades r.1.2 = trades db).
Proof.
  intros r. pose proof (ExecuteTrade_cases transactor req db) as Hcases.
  cbv zeta in Hcases. fold r in Hcases.
  destruct (fault_at 0 db) as [e1 |]; [left; exists e1; tauto |].
  destruct (fault_at 1 db) as [e2 |]; [right; right; split; [reflexivity |]; exists e2; tauto |].
  right; left. destruct Hcases as (_ & Hp & Ht). repeat split; [exact Hp |].
  eexists. split; [exact Ht |].
  destruct (fault_at 2 db), transactor; reflexivity.
Qed.

(** C3, as the code has it.  [CreateTrade] writes the new trade as pending,
    with no transaction hash.  [ExecuteTrade] leaves the trades that were in
    the ledger as they were and adds at most one: none when an insert fails;
    otherwise the trade it created, which it has moved to failed, with an
    empty hash, when the submission failed, and to confirmed, with the hash of
    the submission, when it succeeded, and which is still pending when the
    update itself failed.  It returns the error of the submission, if any.
    [UpdateTradeStatus] does not look at the status a trade has: when its
    statement succeeds, every row with the given id takes the given status and
    transaction hash. *)
Theorem ExecuteTrade_status_moves transactor req db :
  let r := ExecuteTrade transactor req db in
  match fault_at 0 db, fault_at 1 db with
  | None, None =>
    r.1.1 = match transactor with
            | Some e => Some (WrapError "failed to submit trade" e)
            | None => None
            end /\
    trades r.1.2 =
    trades db ++ [match fault_at 2 db, transactor with
                  | Some _, _ => trade_row req db "pending" None
                  | None, Some _ => trade_row req db "failed" (Some "")
                  | None, None => trade_row req db "confirmed" (Some mockTxHash)
                  end]
  | _, _ => r.1.1 <> None /\ trades r.1.2 = trades db
  end /\
  (forall positionID traderAddr side amount price db0,
     fault_at 0 db0 = None ->
     exists row,
       trades (CreateTrade positionID traderAddr side amount price db0).2 =
       trades db0 ++ [row] /\
       t_status row = "pending" /\ t_tx_hash row = None) /\
  (forall tradeID status txHash db0,
     fault_at 0 db0 = None ->
     (UpdateTradeStatus tradeID status txHash db0).1 = None /\
     trades (UpdateTradeStatus tradeID status txHash db0).2 =
     map (set_status tradeID status txHash) (trades db0)) /\
  (forall tradeID status txHash row,
     t_id row = tradeID ->
     t_status (set_status tradeID status txHash row) = status /\
     t_tx_hash (set_status tradeID status txHash row) = Some txHash).
Proof.
  intros r. split; [| split; [| split]].
  - pose proof (ExecuteTrade_cases transactor req db) as Hcases.
    cbv zeta in Hcases. fold r in Hcases.
    destruct (fault_at 0 db) as [e1 |].
    { destruct Hcases as (-> & _ & Ht). split; [discriminate | exact Ht]. }
    destruct (fault_at 1 db) as [e2 |].
    { destruct Hcases as (-> & _ & Ht). split; [discriminate | exact Ht]. }
    destruct Hcases as (Herr & _ & Ht). split; [exact Herr | exact Ht].
  - intros positionID traderAddr side amount price db0.
    unfold fault_at, CreateTrade, next_fault.
    destruct (faults db0) as [| [e |] script]; cbn; intros H;
      try discriminate H; eexists; repeat split.
  - intros tradeID status txHash db0. unfold fault_at, UpdateTradeStatus, next_fault.
    destruct (faults db0) as [| [e |] script]; cbn; intros H;
      try discriminate H; split; reflexivity.
  - intros tradeID status txHash row <-. unfold set_status.
    rewrite Z.eqb_refl. split; reflexivity.
Qed.

End Executing.

(** Two deliveries to an empty ledger. *)
Lemma deliver_inserts_every_time_witness :
  Database.faults (Database.empty []) = [] /\
  length (Database.trades
            (Executor.deliver 2 (Some Samples.no_chain_id) Samples.request
               (Database.empty [])))
  = 2%nat.
Proof.
  split; [reflexivity |].
  exact (proj1 (deliver_inserts_every_time 2 (Some Samples.no_chain_id)
                  Samples.request (Database.empty []) eq_refl)).
Defined.

(** C1, as the specification has it, fails: the same request delivered twice
    to an empty ledger leaves two trades, with the ids 1 and 2, and no column
    tells the two deliveries from one.  It is so when the submission fails and
    when it succeeds. *)
Lemma deliver_twice_counterexample :
  let failing := Executor.deliver 2 (Some Samples.no_chain_id) Samples.request
                   (Database.empty []) in
  let passing := Executor.deliver 2 None Samples.request (Database.empty []) in
  map Database.t_id (Database.trades failing) = [1; 2] /\
  map Database.t_status (Database.trades failing) = ["failed"; "failed"] /\
  map Database.t_position_id (Database.trades failing) = [1; 2] /\
  map Database.t_id (Database.trades passing) = [1; 2] /\
  map Database.t_status (Database.trades passing) = ["confirmed"; "confirmed"].
Proof. repeat split. Qed.

(** C2, as the specification has it, fails when the driver refuses the second
    insert: the position is in the ledger and no trade is. *)
Lemma ExecuteTrade_position_alone_counterexample :
  let locked := ErrorString "database is locked" in
  let r := Executor.ExecuteTrade (Some Samples.no_chain_id) Samples.request
             (Database.empty [None; Some locked]) in
  r.1.1 = Some (WrapError "failed to create trade" locked) /\
  map Database.p_id (Database.positions r.1.2) = [1] /\
  Database.trades r.1.2 = [].
Proof. repeat split. Qed.

(** C3, as the specification has it, fails: a trade that has failed is set to
    confirmed, and one that is confirmed is set back to pending, by a later
    update, which is accepted and changes the row. *)
Lemma UpdateTradeStatus_terminal_counterexample :
  let failed := (Executor.ExecuteTrade (Some Samples.no_chain_id) Samples.request
                   (Database.empty [])).1.2 in
  let confirmed := Database.UpdateTradeStatus 1 "confirmed" "0xabc" failed in
  let pending := Database.UpdateTradeStatus 1 "pending" "" confirmed.2 in
  map Database.t_status (Database.trades failed) = ["failed"] /\
  confirmed.1 = None /\
  map Database.t_status (Database.trades confirmed.2) = ["confirmed"] /\
  map Database.t_tx_hash (Database.trades confirmed.2) = [Some "0xabc"] /\
  pending.1 = None /\
  map Database.t_status (Database.trades pending.2) = ["pending"].
Proof. repeat split. Qed.

(** * Further properties of the code *)

(** ** The listener *)

Section Detecting.

Import Listener.

Variable Hex : Address -> string.

Lemma be_uint_bounds bs : forall acc,
  0 <= acc ->
  0 <= fold_left (fun acc b => acc * 256 + Z.of_N (Byte.to_N b)) bs acc
    < (acc + 1) * 256 ^ Z.of_nat (length bs).
Proof.
  induction bs as [| b bs IH]; intros acc Hacc; cbn [fold_left length].
  - cbn. lia.
  - pose proof (Byte.to_N_bounded b) as Hb.
    specialize (IH (acc * 256 + Z.of_N (Byte.to_N b)) ltac:(lia)).
    rewrite Nat2Z.inj_succ, Z.pow_succ_r by lia.
    split; [lia |]. eapply Z.lt_le_trans; [apply IH |].
    apply Z.mul_le_mono_nonneg_r with (p := 256 ^ Z.of_nat (length bs)) in Hacc as _;
      [| lia].
    assert (0 <= 256 ^ Z.of_nat (length bs)) by (apply Z.pow_nonneg; lia).
    nia.
Qed.

Lemma word_uint256 i data : 0 <= word i data < 2 ^ 256.
Proof.
  unfold word, be_uint.
  pose proof (be_uint_bounds (firstn 32 (skipn (32 * i) data)) 0 ltac:(lia)) as [Hlo Hhi].
  split; [exact Hlo |]. eapply Z.lt_le_trans; [exact Hhi |].
  rewrite Z.mul_1_l. change (2 ^ 256) with (256 ^ 32).
  apply Z.pow_le_mono_r; [lia |].
  pose proof (length_firstn 32 (skipn (32 * i) data)). lia.
Qed.

(** X1.  What [UnpackIntoInterface] fills: the five amounts and ids are
    unsigned 256-bit numbers, and the order hash, the maker and the taker are
    left at their zero values, whatever the payload. *)
Theorem UnpackIntoInterface_fields data event :
  UnpackIntoInterface data = inr event ->
  (160 <= length data)%nat /\
  OrderHash event = 0 /\ Maker event = 0 /\ Taker event = 0 /\
  0 <= MakerAssetId event < 2 ^ 256 /\
  0 <= TakerAssetId event < 2 ^ 256 /\
  0 <= MakerAmountFilled event < 2 ^ 256 /\
  0 <= TakerAmountFilled event < 2 ^ 256 /\
  0 <= Fee event < 2 ^ 256.
Proof.
  unfold UnpackIntoInterface.
  destruct (Nat.eqb_spec (length data) 0) as [| _]; [discriminate |].
  destruct (Nat.ltb_spec (length data) 160) as [| Hlen]; [discriminate |].
  intros [= <-]. cbn [OrderHash Maker Taker MakerAssetId TakerAssetId
                       MakerAmountFilled TakerAmountFilled Fee zero_event].
  repeat apply conj; try exact Hlen; try reflexivity; apply word_uint256.
Qed.

(** The event that [processOrderFilled] works on has the parties of the
    decoded one. *)
Lemma processOrderFilled_unfold l vLog event :
  UnpackIntoInterface (Data vLog) = inr event ->
  processOrderFilled Hex l vLog =
  (let makerIsTop := isTop l (ToLower (Hex 0)) in
   let takerIsTop := isTop l (ToLower (Hex 0)) in
   if negb makerIsTop && negb takerIsTop then
     emit Log_not_top_trader;; mret None
   else
     emit Log_activity_detected;;
     maker10 ← slice10 (Hex 0);
     emit (Log_maker maker10 makerIsTop);;
     taker10 ← slice10 (Hex 0);
     emit (Log_taker taker10 takerIsTop);;
     emit (Log_maker_asset (MakerAssetId event));;
     emit (Log_taker_asset (TakerAssetId event));;
     emit (Log_maker_amount (MakerAmountFilled event));;
     emit (Log_taker_amount (TakerAmountFilled event));;
     emit (Log_tx (LogTxHash vLog));;
     let tradeSignal := extractTradeSignal Hex event makerIsTop takerIsTop in
     emit (Printf_signal tradeSignal);;
     storeTradeSignal tradeSignal (LogTxHash vLog)).
Proof.
  intros Hunpack. unfold processOrderFilled. rewrite Hunpack.
  destruct (UnpackIntoInterface_fields _ _ Hunpack) as (_ & _ & Hmaker & Htaker & _).
  destruct event as [h mk tk a1 a2 f1 f2 fee]. cbn in Hmaker, Htaker. subst mk tk.
  destruct (2 <=? length (Topics vLog))%nat; reflexivity.
Qed.

(** X2.  The topics of a fill have no part in what [processOrderFilled] does:
    two logs with the same payload and the same transaction hash are processed
    alike, whatever order hash, maker and taker their topics name. *)
Theorem processOrderFilled_ignores_topics l vLog vLog' :
  Data vLog = Data vLog' ->
  LogTxHash vLog = LogTxHash vLog' ->
  processOrderFilled Hex l vLog = processOrderFilled Hex l vLog'.
Proof.
  intros Hdata Htx.
  destruct (UnpackIntoInterface (Data vLog)) as [err | event] eqn:Hunpack.
  - unfold processOrderFilled. rewrite <- Hdata, Hunpack. reflexivity.
  - rewrite (processOrderFilled_unfold l vLog event Hunpack).
    rewrite (processOrderFilled_unfold l vLog' event) by (rewrite <- Hdata; exact Hunpack).
    rewrite Htx. reflexivity.
Qed.

(** X3.  A listener that does not track the zero address detects no fill at
    all: every log either fails to decode or is dismissed as no top trader's
    activity. *)
Theorem processOrderFilled_detects_nothing l vLog :
  isTop l (ToLower (Hex 0)) = false ->
  (exists err, processOrderFilled Hex l vLog = ([], Ret (Some err))) \/
  processOrderFilled Hex l vLog = ([Log_not_top_trader], Ret None).
Proof.
  intros Hzero.
  destruct (UnpackIntoInterface (Data vLog)) as [err | event] eqn:Hunpack.
  - left. eexists. unfold processOrderFilled. rewrite Hunpack. reflexivity.
  - right. rewrite (processOrderFilled_unfold l vLog event Hunpack), Hzero. reflexivity.
Qed.

(** X4.  [storeTradeSignal] returns exactly on the signals whose trader has
    ten characters or more; on the empty signal that [extractTradeSignal]
    gives when no party is tracked it panics. *)
Theorem storeTradeSignal_needs_trader signal tx :
  (returns (storeTradeSignal signal tx) <-> (10 <= String.length (Trader signal))%nat) /\
  forall event,
    storeTradeSignal (extractTradeSignal Hex event false false) tx =
    ([], Panicked (SliceOutOfRange 10 0)).
Proof.
  split; [| reflexivity].
  unfold storeTradeSignal, slice10, slice_to.
  destruct (Nat.leb_spec 10 (String.length (Trader signal))) as [Hle | Hlt].
  - split; [intros _; exact Hle | intros _]. eexists _, _. reflexivity.
  - split; [| lia]. intros (out & r & Hret). discriminate Hret.
Qed.

(** X5.  The signal is empty exactly when no party is tracked: it has a side
    if and only if the maker or the taker is tracked. *)
Theorem extractTradeSignal_untracked event makerIsTop takerIsTop :
  let s := extractTradeSignal Hex event makerIsTop takerIsTop in
  (Side s = "" <-> makerIsTop || takerIsTop = false) /\
  (makerIsTop || takerIsTop = false -> s = zero_signal).
Proof.
  cbv zeta. unfold extractTradeSignal.
  destruct makerIsTop, takerIsTop; cbn;
    repeat match goal with
      | |- context [?a =? 0] => destruct (a =? 0); cbn
      | |- context [0 <? ?a] => destruct (0 <? a); cbn
      end;
    repeat split; intros; try reflexivity; try discriminate.
Qed.

(** X6.  With amounts that are not negative, a price is never negative, and
    it is 0 exactly for a Buy in which a million times the taker's amount is
    still below the maker's amount: the integer division rounds it away. *)
Theorem extractTradeSignal_price_zero event makerIsTop takerIsTop :
  0 <= TakerAmountFilled event ->
  let s := extractTradeSignal Hex event makerIsTop takerIsTop in
  (forall p, Price s = Some p -> 0 <= p) /\
  (Price s = Some 0 <->
   Side s = "BUY" /\ 0 < MakerAmountFilled event /\
   TakerAmountFilled event * 1000000 < MakerAmountFilled event).
Proof.
  intros Htaker s.
  assert (Hprice : Price s =
    (if String.eqb (Side s) "BUY" && (0 <? MakerAmountFilled event)
     then Some (TakerAmountFilled event * 1000000 / MakerAmountFilled event)
     else None)).
  { subst s. unfold extractTradeSignal.
    destruct makerIsTop, takerIsTop; cbn;
      repeat match goal with
        | |- context [?a =? 0] => destruct (a =? 0); cbn
        | |- context [0 <? ?a] => destruct (0 <? a); cbn
        end; reflexivity. }
  rewrite Hprice. clear Hprice.
  destruct (String.eqb_spec (Side s) "BUY") as [Hside | Hside]; cbn [andb].
  - destruct (Z.ltb_spec 0 (MakerAmountFilled event)) as [Hmaker | Hmaker].
    + split.
      * intros p [= <-]. apply Z.div_pos; lia.
      * split.
        -- intros [= Hzero]. apply Z.div_small_iff in Hzero; [| lia].
           repeat apply conj; [exact Hside | exact Hmaker | lia].
        -- intros (_ & _ & Hsmall). f_equal. apply Z.div_small. lia.
    + split; [discriminate |]. split; [discriminate | lia].
  - split; [discriminate |]. split; [discriminate | tauto].
Qed.

End Detecting.

Section Surviving.

Import Listener.

Variable Hex : Address -> string.

Lemma processLogs_all l logs :
  Forall (fun vLog => (processLog Hex l vLog).2 = Ret None) logs ->
  processLogs Hex l logs = (outputs Hex l logs, Ret tt).
Proof.
  intros Hlogs. induction Hlogs as [| vLog logs Hlog _ IH]; [reflexivity |].
  destruct (processLog Hex l vLog) as [o r] eqn:Hv. cbn in Hlog. subst r.
  rewrite (processLogs_cons_nil Hex _ _ _ _ Hv), IH.
  unfold outputs. cbn [map concat]. rewrite Hv. reflexivity.
Qed.

(** X7.  A block none of whose logs fails is processed whole and in order:
    what [processBlock] writes is what its logs write one after the other, and
    it returns no error. *)
Theorem processBlock_processes_all l number logs :
  Forall (fun vLog => (processLog Hex l vLog).2 = Ret None) logs ->
  processBlock Hex l number (inr logs) = (outputs Hex l logs, Ret None).
Proof.
  intros Hlogs. unfold processBlock. rewrite (processLogs_all l logs Hlogs), bind_ret.
  cbn. rewrite app_nil_r. reflexivity.
Qed.

Lemma processLogs_panic l pre bad post :
  Forall (fun vLog => (processLog Hex l vLog).2 = Ret None) pre ->
  Topics bad = [] ->
  processLogs Hex l (pre ++ bad :: post) =
  (outputs Hex l pre ++ [Println_topics []], Panicked (IndexOutOfRange 0 0)).
Proof.
  intros Hpre Hbad. induction Hpre as [| vLog pre Hlog _ IH]; cbn [app].
  - cbn [processLogs]. unfold processLog. rewrite Hbad. reflexivity.
  - destruct (processLog Hex l vLog) as [o r] eqn:Hv. cbn in Hlog. subst r.
    rewrite (processLogs_cons_nil Hex _ _ _ _ Hv), IH.
    unfold outputs. cbn [map concat]. rewrite Hv. cbn [fst snd].
    rewrite <- app_assoc. reflexivity.
Qed.

(** X8.  A log with no topic takes the watch loop down: the logs before it are
    processed, then the panic of [processLog] leaves [processBlock] and the
    loop of [Start]; the rest of the block and every later case are lost. *)
Theorem watch_panics_on_bare_log l number pre bad post cases :
  Forall (fun vLog => (processLog Hex l vLog).2 = Ret None) pre ->
  Topics bad = [] ->
  watch Hex l (Header number (inr (pre ++ bad :: post)) :: cases) =
  (outputs Hex l pre ++ [Println_topics []], Panicked (IndexOutOfRange 0 0)).
Proof.
  intros Hpre Hbad. cbn [watch]. unfold processBlock.
  rewrite (processLogs_panic l pre bad post Hpre Hbad). reflexivity.
Qed.

Section WithLongHex.

Hypothesis Hex_length : forall a, (10 <= String.length (Hex a))%nat.





End WithLongHex.

End Surviving.

Section Refreshing.

Import Listener.

Lemma last_fetch_seen cases : forall seen,
  last_fetch seen cases =
  match last_fetch None cases with
  | Some traders => Some traders
  | None => seen
  end.
Proof.
  induction cases as [| [| [err | traders]] cases IH]; intros seen; cbn;
    try reflexivity.
  - apply IH.
  - rewrite (IH (Some traders)).
    destruct (last_fetch None cases); reflexivity.
Qed.

(** X10.  After any run of ticks the tracked set is the one of the last query
    that succeeded, whatever the earlier queries gave; it is the set the
    listener started with if none succeeded.  Ticks after the context is done
    play no part. *)
Theorem updateTopTraders_last_fetch cases : forall l,
  (updateTopTraders l cases).1 =
  match last_fetch None cases with
  | Some traders => with_topTraders (fill ∅ traders) l
  | None => l
  end.
Proof.
  induction cases as [| [| [err | traders]] cases IH]; intros l;
    cbn [updateTopTraders last_fetch refresh]; try reflexivity.
  - specialize (IH l). destruct (updateTopTraders l cases) as [l' out']. exact IH.
  - set (l1 := with_topTraders _ (with_topTraders ∅ l)).
    specialize (IH l1). destruct (updateTopTraders l1 cases) as [l' out'].
    cbn [fst] in *. rewrite IH, (last_fetch_seen cases (Some traders)).
    destruct (last_fetch None cases); reflexivity.
Qed.

Lemma fill_size traders : forall m : gmap string bool,
  (size (fill m traders) <= size m + length traders)%nat.
Proof.
  unfold fill. induction traders as [| trader traders IH]; intros m; cbn; [lia |].
  etransitivity; [apply IH |]. rewrite map_size_insert.
  destruct (m !! ToLower trader); cbn; lia.
Qed.

Lemma fill_dom traders : forall m : gmap string bool,
  dom (fill m traders) = dom m ∪ list_to_set (map ToLower traders).
Proof.
  unfold fill. induction traders as [| trader traders IH]; intros m; cbn.
  - set_solver.
  - rewrite IH, dom_insert_L. set_solver.
Qed.

(** X11.  The tracked set holds one entry per distinct lower-cased address:
    addresses that differ by letter case only are tracked once.  The count
    that a tick logs is never above the number of addresses fetched, and is
    equal to it when the lower-cased addresses are all different. *)
Theorem refresh_counts_distinct l traders :
  let l' := (refresh l (inr traders)).1 in
  dom (topTraders l') = list_to_set (map ToLower traders) /\
  (refresh l (inr traders)).2 = [Log_updated_top_traders (size (topTraders l'))] /\
  (size (topTraders l') <= length traders)%nat /\
  (NoDup (map ToLower traders) -> size (topTraders l') = length traders).
Proof.
  cbn [refresh fst snd topTraders with_topTraders].
  assert (Hdom : dom (fill ∅ traders) = list_to_set (C := gset string) (map ToLower traders)).
  { rewrite fill_dom, dom_empty_L. set_solver. }
  repeat apply conj; [exact Hdom | reflexivity | |].
  - pose proof (fill_size traders ∅) as Hsize. rewrite map_size_empty in Hsize. lia.
  - intros Hnodup. rewrite <- size_dom, Hdom, size_list_to_set by exact Hnodup.
    apply length_map.
Qed.

End Refreshing.

(** ** The ledger *)

Section Keeping.

Import Database Executor.

Lemma set_status_core tradeID status txHash row :
  trade_core (set_status tradeID status txHash row) = trade_core row.
Proof. unfold set_status. destruct (t_id row =? tradeID); reflexivity. Qed.

Lemma set_status_absent tradeID status txHash rows :
  ~ In tradeID (map t_id rows) ->
  map (set_status tradeID status txHash) rows = rows.
Proof.
  intros Habsent. induction rows as [| row rows IH]; cbn; [reflexivity |].
  rewrite IH by (intros Hin; apply Habsent; right; exact Hin).
  unfold set_status. destruct (Z.eqb_spec (t_id row) tradeID) as [Heq | _]; [| reflexivity].
  exfalso. apply Habsent. left. exact Heq.
Qed.

(** X12.  An update of a trade that is not in the ledger changes no row and
    is not reported: the only error [UpdateTradeStatus] can return is the
    driver's. *)
Theorem UpdateTradeStatus_missing_trade tradeID status txHash db :
  ~ In tradeID (map t_id (trades db)) ->
  let r := UpdateTradeStatus tradeID status txHash db in
  r.1 = fault_at 0 db /\ trades r.2 = trades db /\ positions r.2 = positions db.
Proof.
  intros Habsent. unfold UpdateTradeStatus, next_fault, fault_at.
  destruct (faults db) as [| [e |] script]; cbn; repeat apply conj; try reflexivity;
    apply set_status_absent, Habsent.
Qed.

(** X13.  [UpdateTradeStatus] writes the status and the transaction hash
    only: ids, position references, sides, amounts and prices of all trades
    stay, the trades with another id stay whole, the positions stay, and an
    update that the driver refuses changes nothing. *)
Theorem UpdateTradeStatus_keeps_rows tradeID status txHash db :
  let r := UpdateTradeStatus tradeID status txHash db in
  map trade_core (trades r.2) = map trade_core (trades db) /\
  positions r.2 = positions db /\
  (forall row, In row (trades db) -> t_id row <> tradeID -> In row (trades r.2)) /\
  (forall e, fault_at 0 db = Some e -> r.1 = Some e /\ trades r.2 = trades db).
Proof.
  unfold UpdateTradeStatus, next_fault, fault_at.
  destruct (faults db) as [| [e |] script]; cbn; repeat apply conj;
    try reflexivity; try (intros; assumption); try discriminate;
    try (intros ? [= <-]; split; reflexivity).
  all: try (rewrite map_map; apply map_ext; intros row; apply set_status_core).
  all: intros row Hin Hid; apply in_map_iff; exists row; split; [| exact Hin];
    unfold set_status; destruct (Z.eqb_spec (t_id row) tradeID); [contradiction | reflexivity].
Qed.

Lemma NoDup_snoc {A : Type} (l : list A) (x : A) :
  NoDup l -> ~ In x l -> NoDup (l ++ [x]).
Proof.
  intros Hl Hx. induction Hl as [| y l Hy Hl IH]; cbn.
  - constructor; [intros H; inversion H | constructor].
  - constructor.
    + rewrite list_elem_of_In, in_app_iff. intros [Hin | [-> | []]].
      * apply Hy, list_elem_of_In, Hin.
      * apply Hx. left. reflexivity.
    + apply IH. intros Hin. apply Hx. right. exact Hin.
Qed.

Lemma next_rowid_absent seq ids : ~ In (next_rowid seq ids) ids.
Proof. intros Hin. apply (next_rowid_fresh seq) in Hin. lia. Qed.

Lemma ExecuteTrade_keeps_ledger transactor req db :
  ledger_ok db -> ledger_ok (ExecuteTrade transactor req db).1.2.
Proof.
  intros (Hp & Ht & Hone & Href & Hopen).
  pose proof (ExecuteTrade_cases transactor req db) as Hcases. cbv zeta in Hcases.
  set (r := ExecuteTrade transactor req db) in *.
  assert (Hp' : NoDup (map p_id (positions db ++ [position_row req db]))).
  { rewrite map_app. apply NoDup_snoc; [exact Hp | apply next_rowid_absent]. }
  assert (Hopen' : Forall (fun row => p_status row = "open")
                     (positions db ++ [position_row req db])).
  { apply Forall_app. split; [exact Hopen | repeat constructor]. }
  assert (Href' : forall row, In row (trades db) ->
            In (t_position_id row) (map p_id (positions db ++ [position_row req db]))).
  { intros row Hrow. rewrite map_app, in_app_iff. left. apply Href, Hrow. }
  unfold ledger_ok.
  destruct (fault_at 0 db) as [e1 |].
  { destruct Hcases as (_ & -> & ->). repeat apply conj; assumption. }
  destruct (fault_at 1 db) as [e2 |].
  { destruct Hcases as (_ & -> & ->). repeat apply conj; assumption. }
  destruct Hcases as (_ & -> & ->).
  set (t := match fault_at 2 db with Some _ => _ | None => _ end).
  assert (Hid : t_id t = next_rowid (trades_seq db) (map t_id (trades db)))
    by (subst t; destruct (fault_at 2 db), transactor; reflexivity).
  assert (Hpid : t_position_id t = p_id (position_row req db))
    by (subst t; destruct (fault_at 2 db), transactor; reflexivity).
  repeat apply conj; try assumption.
  - rewrite map_app. cbn [map]. rewrite Hid.
    apply NoDup_snoc; [exact Ht | apply next_rowid_absent].
  - rewrite map_app. cbn [map]. rewrite Hpid.
    apply NoDup_snoc; [exact Hone |].
    intros Hin. apply in_map_iff in Hin as (row & Heq & Hrow).
    apply Href in Hrow. rewrite Heq in Hrow.
    exact (next_rowid_absent _ _ Hrow).
  - intros row Hrow. apply in_app_iff in Hrow as [Hrow | [<- | []]].
    + apply Href', Hrow.
    + rewrite Hpid, map_app, in_app_iff. right. left. reflexivity.
Qed.

(** X14.  The executions keep the ledger in order, whatever the driver and
    the submission do: position ids and trade ids stay unique, every trade
    points at a position that is in the ledger, no two trades share a position
    (each execution opens a position of its own), and no position is ever
    closed. *)
Theorem deliver_keeps_ledger n transactor req : forall db,
  ledger_ok db -> ledger_ok (deliver n transactor req db).
Proof.
  induction n as [| n IH]; intros db Hok; cbn [deliver]; [exact Hok |].
  apply IH, ExecuteTrade_keeps_ledger, Hok.
Qed.

Lemma filter_all {A : Type} (f : A -> bool) (l : list A) :
  Forall (fun x => f x = true) l -> List.filter f l = l.
Proof.
  intros Hall. induction Hall as [| x l Hx _ IH]; cbn; [reflexivity |].
  rewrite Hx, IH. reflexivity.
Qed.

(** X15.  Since no position is ever closed, [GetOpenPositions] returns every
    position that the executions have written, in the order of their
    creation. *)
Theorem GetOpenPositions_returns_all n transactor req db :
  ledger_ok db ->
  let db' := deliver n transactor req db in
  fault_at 0 db' = None ->
  (GetOpenPositions db').1 = inr (map scan_position (positions db')).
Proof.
  intros Hok db' Hfault.
  destruct (deliver_keeps_ledger n transactor req db Hok) as (_ & _ & _ & _ & Hopen).
  fold db' in Hopen. unfold GetOpenPositions, next_fault, fault_at in *.
  assert (Hall : List.filter (fun row => String.eqb (p_status row) "open") (positions db')
                 = positions db').
  { apply filter_all. eapply Forall_impl; [exact Hopen |].
    cbn. intros row ->. reflexivity. }
  destruct (faults db') as [| [e |] script]; cbn in *; try discriminate Hfault;
    rewrite Hall; reflexivity.
Qed.

(** X16.  [ExecuteTrade] returns no error exactly when the two inserts and
    the submission succeed.  A confirmation that the driver refuses does not
    count: the refusal is logged, the execution is reported as done, and the
    trade stays pending in the ledger, without its transaction hash. *)
Theorem ExecuteTrade_reports_success transactor req db :
  let r := ExecuteTrade transactor req db in
  (r.1.1 = None <->
   fault_at 0 db = None /\ fault_at 1 db = None /\ transactor = None) /\
  (forall e,
     fault_at 0 db = None -> fault_at 1 db = None -> transactor = None ->
     fault_at 2 db = Some e ->
     r.1.1 = None /\
     trades r.1.2 = trades db ++ [trade_row req db "pending" None] /\
     r.2 = [Log_executing req; Log_submitted mockTxHash; Log_failed_update e;
            Log_trade_executed mockTxHash]).
Proof.
  cbv zeta. split.
  - pose proof (ExecuteTrade_cases transactor req db) as Hcases. cbv zeta in Hcases.
    destruct (fault_at 0 db) as [e1 |];
      [destruct Hcases as (-> & _); split; [discriminate | intros (H & _); discriminate H] |].
    destruct (fault_at 1 db) as [e2 |];
      [destruct Hcases as (-> & _); split;
       [discriminate | intros (_ & H & _); discriminate H] |].
    destruct Hcases as (-> & _). destruct transactor; split; try discriminate; auto.
    intros (_ & _ & H). discriminate H.
  - intros e H0 H1 -> H2.
    pose proof (ExecuteTrade_cases None req db) as Hcases. cbv zeta in Hcases.
    rewrite H0, H1, H2 in Hcases. destruct Hcases as (Herr & _ & Htrades).
    repeat apply conj; [exact Herr | exact Htrades |].
    unfold fault_at in *. unfold ExecuteTrade, CreatePosition, CreateTrade,
      UpdateTradeStatus, submitTrade, next_fault.
    destruct db as [ps pseq ts tseq tops script]. cbn in *.
    destruct script as [| [e1 |] [| [e2 |] [| [e3 |] script]]]; cbn in *;
      try discriminate. injection H2 as ->. reflexivity.
Qed.

End Keeping.

(** ** The ranked traders *)

Section Ranking.

Import Database.

Lemma upsert_find_same address pnl winRate rows :
  find_trader address (upsert address pnl winRate rows) =
  Some {| r_address := address; r_total_pnl := pnl; r_win_rate := winRate |}.
Proof.
  unfold find_trader. induction rows as [| row rows IH]; cbn.
  - rewrite String.eqb_refl. reflexivity.
  - destruct (String.eqb_spec (r_address row) address) as [Heq | Hne]; cbn.
    + rewrite String.eqb_refl. reflexivity.
    + destruct (String.eqb_spec (r_address row) address); [contradiction | exact IH].
Qed.

Lemma upsert_find_other address other pnl winRate rows :
  other <> address ->
  find_trader other (upsert address pnl winRate rows) = find_trader other rows.
Proof.
  intros Hother. unfold find_trader. induction rows as [| row rows IH]; cbn.
  - destruct (String.eqb_spec address other); [congruence | reflexivity].
  - destruct (String.eqb_spec (r_address row) address) as [Heq | Hne]; cbn.
    + destruct (String.eqb_spec address other); [congruence |].
      destruct (String.eqb_spec (r_address row) other); [congruence | reflexivity].
    + destruct (String.eqb_spec (r_address row) other); [reflexivity | exact IH].
Qed.

Lemma upsert_addresses address pnl winRate rows :
  map r_address (upsert address pnl winRate rows) =
  if existsb (fun row => String.eqb (r_address row) address) rows
  then map r_address rows
  else map r_address rows ++ [address].
Proof.
  induction rows as [| row rows IH]; cbn; [reflexivity |].
  destruct (String.eqb_spec (r_address row) address) as [Heq | Hne]; cbn.
  - rewrite Heq. reflexivity.
  - rewrite IH. destruct (existsb _ rows); reflexivity.
Qed.

(** X17.  A successful upsert can be read back: the row of the address holds
    the profit and the win rate just written, whether the address was ranked
    before or not, and the rows of all other addresses read as before. *)
Theorem UpsertTopTrader_reads_back address pnl winRate db :
  fault_at 0 db = None ->
  let r := UpsertTopTrader address pnl winRate db in
  r.1 = None /\
  find_trader address (top_traders r.2) =
    Some {| r_address := address; r_total_pnl := pnl; r_win_rate := winRate |} /\
  forall other, other <> address ->
    find_trader other (top_traders r.2) = find_trader other (top_traders db).
Proof.
  unfold fault_at, UpsertTopTrader, next_fault.
  destruct (faults db) as [| [e |] script]; cbn; intros Hfault; try discriminate Hfault;
    repeat apply conj; try reflexivity;
    try apply upsert_find_same; intros other Hother; apply upsert_find_other, Hother.
Qed.

(** X18.  An upsert never removes a trader from the ranking and never repeats
    an address: the addresses that were ranked stay, at most one row is added,
    none when the address was ranked already, and addresses that were unique
    stay unique. *)
Theorem UpsertTopTrader_keeps_addresses address pnl winRate db :
  let before := map r_address (top_traders db) in
  let after := map r_address (top_traders (UpsertTopTrader address pnl winRate db).2) in
  (forall a, In a before -> In a after) /\
  (In address before -> after = before) /\
  (length after <= S (length before))%nat /\
  (NoDup before -> NoDup after).
Proof.
  cbv zeta.
  assert (Hex : forall rows, existsb (fun row => String.eqb (r_address row) address) rows = true
                             <-> In address (map r_address rows)).
  { intros rows. rewrite existsb_exists, in_map_iff. split.
    - intros (row & Hin & Heq). apply String.eqb_eq in Heq. eauto.
    - intros (row & Heq & Hin). exists row. split; [exact Hin |].
      apply String.eqb_eq, Heq. }
  unfold UpsertTopTrader, next_fault.
  destruct (faults db) as [| [e |] script]; cbn;
    try (repeat apply conj; [auto | reflexivity | lia | auto]);
    rewrite upsert_addresses;
    (destruct (existsb _ (top_traders db)) eqn:Hhas;
     [repeat apply conj; [auto | reflexivity | lia | auto]
     | repeat apply conj;
       [intros a Ha; apply in_app_iff; left; exact Ha
       | intros Hin; apply Hex in Hin; congruence
       | rewrite length_app; cbn; lia
       | intros Hnodup; apply NoDup_snoc; [exact Hnodup |];
         intros Hin; apply Hex in Hin; congruence]]).
Qed.

Lemma SFltb_asym x y : SFltb x y = true -> SFltb y x = false.
Proof.
  unfold SFltb, SFcompare.
  destruct x as [[] | [] | | [] m1 e1], y as [[] | [] | | [] m2 e2];
    try reflexivity; try discriminate;
    rewrite (Z.compare_antisym e1 e2), !Pos.compare_cont_spec; cbn;
    rewrite (Pos.compare_antisym m1 m2);
    destruct (e1 ?= e2)%Z; cbn; try reflexivity; try discriminate;
    destruct (m1 ?= m2)%positive; cbn; try reflexivity; discriminate.
Qed.

Lemma ltb_asym (x y : float) : (x <? y)%float = true -> (y <? x)%float = false.
Proof. rewrite !ltb_spec. apply SFltb_asym. Qed.

Lemma insert_desc_perm row sorted :
  Permutation (insert_desc row sorted) (row :: sorted).
Proof.
  induction sorted as [| r sorted IH]; cbn; [reflexivity |].
  destruct (r_total_pnl r <? r_total_pnl row)%float; [reflexivity |].
  rewrite IH. apply perm_swap.
Qed.

Lemma order_by_pnl_desc_perm rows : Permutation (order_by_pnl_desc rows) rows.
Proof.
  unfold order_by_pnl_desc.
  assert (H : forall acc,
            Permutation (fold_left (fun sorted row => insert_desc row sorted) rows acc)
                        (rows ++ acc)).
  { induction rows as [| row rows IH]; intros acc; cbn; [reflexivity |].
    rewrite IH, insert_desc_perm. symmetry. apply Permutation_middle. }
  rewrite H, app_nil_r. reflexivity.
Qed.

Lemma insert_desc_sorted row sorted :
  Sorted not_below sorted -> Sorted not_below (insert_desc row sorted).
Proof.
  intros Hsorted. induction Hsorted as [| r sorted Hsorted IH Hhd]; cbn.
  - repeat constructor.
  - destruct (r_total_pnl r <? r_total_pnl row)%float eqn:Hlt.
    + constructor; [constructor; assumption |].
      constructor. apply ltb_asym, Hlt.
    + constructor; [exact IH |].
      destruct Hhd as [| r2 sorted Hr2]; cbn.
      * constructor. exact Hlt.
      * destruct (r_total_pnl r2 <? r_total_pnl row)%float; constructor; assumption.
Qed.

Lemma order_by_pnl_desc_sorted rows : Sorted not_below (order_by_pnl_desc rows).
Proof.
  unfold order_by_pnl_desc.
  assert (H : forall acc, Sorted not_below acc ->
            Sorted not_below (fold_left (fun sorted row => insert_desc row sorted) rows acc)).
  { induction rows as [| row rows IH]; intros acc Hacc; cbn; [exact Hacc |].
    apply IH, insert_desc_sorted, Hacc. }
  apply H. constructor.
Qed.

Lemma Sorted_firstn {A : Type} (R : A -> A -> Prop) n : forall l,
  Sorted R l -> Sorted R (firstn n l).
Proof.
  induction n as [| n IH]; intros l Hl; [constructor |].
  destruct Hl as [| x l Hl Hhd]; cbn [firstn]; [constructor |].
  constructor; [apply IH, Hl |].
  destruct Hhd as [| y l Hxy]; [destruct n; constructor |].
  destruct n; constructor. exact Hxy.
Qed.


(** X20.  The traders that [GetTopTraders] gives come by descending profit:
    no trader in the answer is below the one that follows it. *)
Theorem GetTopTraders_descending limit db :
  fault_at 0 db = None ->
  exists rows,
    (GetTopTraders limit db).1 = inr (map r_address rows) /\
    Sorted not_below rows /\
    (forall row, In row rows -> In row (top_traders db)).
Proof.
  intros Hfault. exists (limit_rows limit (order_by_pnl_desc (top_traders db))).
  repeat apply conj.
  - unfold GetTopTraders, next_fault, fault_at in *.
    destruct (faults db) as [| [e |] script]; cbn in *; try discriminate Hfault; reflexivity.
  - unfold limit_rows. destruct (limit <? 0);
      [| apply Sorted_firstn]; apply order_by_pnl_desc_sorted.
  - intros row Hrow.
    apply (Permutation_in _ (order_by_pnl_desc_perm (top_traders db))).
    unfold limit_rows in Hrow. destruct (limit <? 0); [exact Hrow |].
    rewrite <- (firstn_skipn (Z.to_nat limit)). apply in_app_iff. left. exact Hrow.
Qed.

End Ranking.

(** ** The users *)

Section Registering.

Import Database.

Lemma next_fault_none db :
  fault_at 0 db = None -> (next_fault db).1 = None.
Proof.
  unfold fault_at, next_fault. destruct (faults db) as [| [e |] script]; cbn;
    intros H; try discriminate H; reflexivity.
Qed.

Lemma next_fault_some db e :
  fault_at 0 db = Some e -> (next_fault db).1 = Some e.
Proof.
  unfold fault_at, next_fault. destruct (faults db) as [| [e' |] script]; cbn;
    intros H; try discriminate H; exact H.
Qed.

Lemma find_absent address rows :
  has_user address rows = false ->
  find (fun row => String.eqb (u_address row) address) rows = None.
Proof.
  unfold has_user. induction rows as [| row rows IH]; cbn; [reflexivity |].
  destruct (String.eqb (u_address row) address); cbn; [discriminate | exact IH].
Qed.

Lemma find_snoc address rows row :
  has_user address rows = false ->
  u_address row = address ->
  find (fun row => String.eqb (u_address row) address) (rows ++ [row]) = Some row.
Proof.
  unfold has_user. intros Habsent Haddress.
  induction rows as [| r rows IH]; cbn in *.
  - rewrite Haddress, String.eqb_refl. reflexivity.
  - destruct (String.eqb (u_address r) address); cbn in *; [discriminate | exact (IH Habsent)].
Qed.

Lemma has_user_In address rows :
  has_user address rows = true <-> In address (map u_address rows).
Proof.
  unfold has_user. rewrite existsb_exists, in_map_iff. split.
  - intros (row & Hin & Heq). apply String.eqb_eq in Heq. eauto.
  - intros (row & Heq & Hin). exists row. split; [exact Hin | apply String.eqb_eq, Heq].
Qed.

(** X21.  A user that [CreateUser] returns can be read back: its shares are
    its deposit, the address was not registered before, and [GetUser] on the
    address gives the same user.  [GetUser] gives neither a user nor an error
    for an address that is not registered, and an empty user beside the error
    when the driver fails. *)
Theorem CreateUser_reads_back address depositAmount lg :
  (forall user,
     (CreateUser address depositAmount lg).1 = inr user ->
     let lg' := (CreateUser address depositAmount lg).2 in
     User.Address user = address /\
     User.DepositAmount user = depositAmount /\
     User.Shares user = depositAmount /\
     has_user address (users lg) = false /\
     (fault_at 0 (store lg') = None -> (GetUser address lg').1 = (Some user, None))) /\
  (has_user address (users lg) = false -> fault_at 0 (store lg) = None ->
   (GetUser address lg).1 = (None, None)) /\
  (forall e, fault_at 0 (store lg) = Some e ->
   (GetUser address lg).1 = (Some zero_user, Some e)).
Proof.
  repeat apply conj.
  - intros user. unfold CreateUser.
    destruct (next_fault (store lg)) as [[e |] db]; cbn; [discriminate |].
    destruct (has_user address (users lg)) eqn:Hhas; cbn; [discriminate |].
    intros [= <-]. cbn. repeat apply conj; try reflexivity.
    intros Hfault. unfold GetUser. cbn [store users].
    pose proof (next_fault_none db Hfault) as Hnext.
    destruct (next_fault db) as [f db']. cbn in Hnext. subst f.
    erewrite (find_snoc address (users lg)); [reflexivity | exact Hhas | reflexivity].
  - intros Hhas Hfault. unfold GetUser.
    pose proof (next_fault_none _ Hfault) as Hnext.
    destruct (next_fault (store lg)) as [f db']. cbn in Hnext. subst f.
    rewrite (find_absent address (users lg) Hhas). reflexivity.
  - intros e Hfault. unfold GetUser.
    pose proof (next_fault_some _ e Hfault) as Hnext.
    destruct (next_fault (store lg)) as [f db']. cbn in Hnext. subst f. reflexivity.
Qed.

(** X22.  [CreateUser] refuses an address that is registered already and
    leaves the users as they were; addresses that are unique stay unique, and
    the users that were registered stay registered. *)
Theorem CreateUser_keeps_addresses_unique address depositAmount lg :
  let r := CreateUser address depositAmount lg in
  (has_user address (users lg) = true ->
   (exists e, r.1 = inl e) /\ users r.2 = users lg) /\
  (NoDup (map u_address (users lg)) -> NoDup (map u_address (users r.2))) /\
  (forall row, In row (users lg) -> In row (users r.2)).
Proof.
  cbv zeta. unfold CreateUser.
  destruct (next_fault (store lg)) as [[e |] db]; cbn.
  - repeat apply conj; eauto.
  - destruct (has_user address (users lg)) eqn:Hhas; cbn.
    + repeat apply conj; eauto.
    + repeat apply conj; [discriminate | |].
      * intros Hnodup. rewrite map_app. cbn. apply NoDup_snoc; [exact Hnodup |].
        intros Hin. apply has_user_In in Hin. congruence.
      * intros row Hrow. apply in_app_iff. left. exact Hrow.
Qed.

End Registering.

(** ** The ingestion service *)

Section Ingesting.

Import Database Ingestion.

Variable cfg : Config.

Lemma UpsertTopTrader_tables address pnl winRate db :
  let r := UpsertTopTrader address pnl winRate db in
  r.1 = fault_at 0 db /\
  positions r.2 = positions db /\ trades r.2 = trades db /\
  faults r.2 = tl (faults db) /\
  top_traders r.2 =
    match r.1 with
    | None => upsert address pnl winRate (top_traders db)
    | Some _ => top_traders db
    end.
Proof.
  unfold UpsertTopTrader, next_fault, fault_at.
  destruct (faults db) as [| [e |] script] eqn:Hfaults; cbn; rewrite ?Hfaults;
    repeat apply conj; reflexivity.
Qed.

Lemma GetTopTraders_tables limit db :
  positions (GetTopTraders limit db).2 = positions db /\
  trades (GetTopTraders limit db).2 = trades db /\
  top_traders (GetTopTraders limit db).2 = top_traders db.
Proof.
  unfold GetTopTraders, next_fault.
  destruct (faults db) as [| [e |] script]; cbn; repeat apply conj; reflexivity.
Qed.

Lemma estimatedWinRate_capped entry :
  (0x1.ccccccccccccdp-1 <? estimatedWinRate entry)%float = false.
Proof.
  unfold estimatedWinRate.
  set (rate := (0.5 + _)%float). cbv zeta.
  destruct (0x1.ccccccccccccdp-1 <? rate)%float eqn:Hrate; [reflexivity | exact Hrate].
Qed.

Lemma upsert_capped address pnl winRate rows :
  (0x1.ccccccccccccdp-1 <? winRate)%float = false ->
  Forall capped rows -> Forall capped (upsert address pnl winRate rows).
Proof.
  intros Hrate Hrows. induction Hrows as [| row rows Hrow Hrows IH]; cbn.
  - repeat constructor. exact Hrate.
  - destruct (String.eqb (r_address row) address); constructor;
      try assumption; exact Hrate.
Qed.

Lemma upsert_address_in address pnl winRate rows a :
  In a (map r_address (upsert address pnl winRate rows)) <->
  In a (map r_address rows) \/ a = address.
Proof.
  rewrite upsert_addresses.
  destruct (existsb _ rows) eqn:Hhas.
  - split; [auto |]. intros [Hin | ->]; [exact Hin |].
    apply existsb_exists in Hhas as (row & Hrow & Heq).
    apply String.eqb_eq in Heq. apply in_map_iff. eauto.
  - rewrite in_app_iff. cbn. split; intros [H | H]; auto.
    destruct H as [<- | []]. auto.
Qed.

(** One turn of the loop over the entries. *)
Lemma store_entries_cons entry entries db count :
  store_entries cfg (entry :: entries) db count =
  if (MinProfitThreshold cfg <=? PnL entry)%float then
    let r1 := UpsertTopTrader (ProxyWallet entry) (PnL entry) (estimatedWinRate entry) db in
    let r := store_entries cfg entries r1.2
               (match r1.1 with Some _ => count | None => S count end) in
    (r.1.1, r.1.2,
     match r1.1 with
     | Some err => Log_upsert_failed (ProxyWallet entry) err
     | None => Log_rank_kept (Rank entry) (UserName entry) (PnL entry) (Vol entry)
     end :: r.2)
  else
    let r := store_entries cfg entries db count in
    (r.1.1, r.1.2, Log_rank_below (Rank entry) (UserName entry) (PnL entry) :: r.2).
Proof.
  cbn [store_entries]. destruct (MinProfitThreshold cfg <=? PnL entry)%float.
  - destruct (UpsertTopTrader _ _ _ db) as [[e |] db1]; cbn [fst snd];
      destruct (store_entries cfg entries db1 _) as [[db2 count2] out2]; reflexivity.
  - cbv zeta. destruct (store_entries cfg entries db count) as [[db2 count2] out2].
    reflexivity.
Qed.

(** What the loop over the entries leaves. *)
Lemma store_entries_leaves entries : forall db count,
  let r := store_entries cfg entries db count in
  positions r.1.1 = positions db /\ trades r.1.1 = trades db /\
  (forall a, In a (map r_address (top_traders db)) ->
             In a (map r_address (top_traders r.1.1))) /\
  (forall a, In a (map r_address (top_traders r.1.1)) ->
             In a (map r_address (top_traders db)) \/
             In a (map ProxyWallet (kept cfg entries))) /\
  (Forall capped (top_traders db) -> Forall capped (top_traders r.1.1)) /\
  (count <= r.1.2 <= count + length (kept cfg entries))%nat /\
  (faults db = [] ->
   r.1.2 = (count + length (kept cfg entries))%nat /\ faults r.1.1 = []) /\
  (kept cfg entries = [] -> r.1.1 = db /\ r.1.2 = count).
Proof.
  induction entries as [| entry entries IH]; intros db count.
  - cbn. repeat apply conj; auto; lia.
  - cbv zeta. rewrite store_entries_cons. cbn [kept List.filter]. fold (kept cfg entries).
    destruct (MinProfitThreshold cfg <=? PnL entry)%float; cbv zeta; cbn [fst snd].
    + pose proof (UpsertTopTrader_tables (ProxyWallet entry) (PnL entry)
                    (estimatedWinRate entry) db) as (Herr & Hp & Ht & Hf & Hrows).
      set (r1 := UpsertTopTrader _ _ _ db) in *.
      set (count1 := match r1.1 with Some _ => count | None => S count end).
      specialize (IH r1.2 count1). cbv zeta in IH.
      destruct IH as (IHp & IHt & IHin & IHout & IHcap & IHcount & IHfaults & _).
      assert (Hcount1 : (count <= count1 <= S count)%nat)
        by (subst count1; destruct r1.1; lia).
      assert (Hin1 : forall a, In a (map r_address (top_traders r1.2)) <->
                In a (map r_address (top_traders db)) \/
                (r1.1 = None /\ a = ProxyWallet entry)).
      { intros a. rewrite Hrows. destruct r1.1.
        - split; [auto | intros [H | [H _]]; [exact H | discriminate H]].
        - rewrite upsert_address_in. split; intros [H | H]; auto. tauto. }
      repeat apply conj.
      * congruence.
      * congruence.
      * intros a Ha. apply IHin, Hin1. left. exact Ha.
      * intros a Ha. destruct (IHout a Ha) as [H | H].
        -- apply Hin1 in H as [H | [_ ->]]; [left; exact H | right; left; reflexivity].
        -- right. right. exact H.
      * intros Hcap. apply IHcap. rewrite Hrows. destruct r1.1; [exact Hcap |].
        apply upsert_capped; [apply estimatedWinRate_capped | exact Hcap].
      * cbn [length]. lia.
      * cbn [length]. lia.
      * intros Hfaults.
        assert (Hnone : r1.1 = None) by (rewrite Herr; unfold fault_at; rewrite Hfaults; reflexivity).
        rewrite Hfaults in Hf. destruct (IHfaults Hf) as [-> Hrest].
        split; [| exact Hrest]. subst count1. rewrite Hnone. cbn [length]. lia.
      * discriminate.
    + specialize (IH db count). cbv zeta in IH. exact IH.
Qed.

Lemma updateLeaderboardFromAPI_leaves fetched db :
  let r := updateLeaderboardFromAPI cfg fetched db in
  r.1.1 = match fetched with inl e => Some e | inr _ => None end /\
  positions r.1.2 = positions db /\ trades r.1.2 = trades db /\
  (forall a, In a (map r_address (top_traders db)) ->
             In a (map r_address (top_traders r.1.2))) /\
  (forall a, In a (map r_address (top_traders r.1.2)) ->
             In a (map r_address (top_traders db)) \/
             exists entries, fetched = inr entries /\
                             In a (map ProxyWallet (kept cfg entries))) /\
  (Forall capped (top_traders db) -> Forall capped (top_traders r.1.2)) /\
  (forall entries, fetched = inr entries -> kept cfg entries = [] ->
                   top_traders r.1.2 = top_traders db).
Proof.
  destruct fetched as [e | [| entry entries]]; cbn [updateLeaderboardFromAPI];
    try (cbn; repeat apply conj; auto; fail).
  pose proof (store_entries_leaves (entry :: entries) db 0)
    as (Hp & Ht & Hin & Hout & Hcap & _ & _ & Hnone).
  cbv zeta in Hp, Ht, Hin, Hout, Hcap, Hnone.
  destruct (store_entries cfg (entry :: entries) db 0) as [[db1 count1] out1].
  cbn [fst snd] in *.
  pose proof (GetTopTraders_tables (TopTradersCount cfg) db1) as (Gp & Gt & Grows).
  destruct (GetTopTraders (TopTradersCount cfg) db1) as [[e | [| t ts]] db2];
    cbn [fst snd] in *; rewrite Gp, Gt, Grows.
  all: repeat apply conj; auto.
  all: try (intros a Ha; destruct (Hout a Ha); eauto; fail).
  all: intros es [= <-] Hkept; destruct (Hnone Hkept) as [-> _]; reflexivity.
Qed.

(** X23.  Entries below the profit threshold are never stored: a leaderboard
    none of whose entries reaches the threshold leaves the ranking as it was,
    and the update still reports no error. *)
Theorem updateLeaderboardFromAPI_below_threshold entries db :
  kept cfg entries = [] ->
  let r := updateLeaderboardFromAPI cfg (inr entries) db in
  r.1.1 = None /\ top_traders r.1.2 = top_traders db.
Proof.
  intros Hkept.
  pose proof (updateLeaderboardFromAPI_leaves (inr entries) db)
    as (Herr & _ & _ & _ & _ & _ & Hsame).
  split; [exact Herr | exact (Hsame entries eq_refl Hkept)].
Qed.

(** X24.  An update never takes a trader off the ranking, and the traders it
    adds are wallets of fetched entries that reach the profit threshold: once
    ranked, a trader stays in the ledger whatever the later leaderboards
    hold. *)
Theorem updateLeaderboardFromAPI_ranking_grows fetched db :
  let before := map r_address (top_traders db) in
  let after := map r_address (top_traders (updateLeaderboardFromAPI cfg fetched db).1.2) in
  (forall a, In a before -> In a after) /\
  (forall a, In a after ->
     In a before \/
     exists entries, fetched = inr entries /\ In a (map ProxyWallet (kept cfg entries))).
Proof.
  pose proof (updateLeaderboardFromAPI_leaves fetched db)
    as (_ & _ & _ & Hin & Hout & _).
  split; [exact Hin | exact Hout].
Qed.

(** X25.  The only error that [updateLeaderboardFromAPI] returns is the one
    of the fetch: upserts that the driver refuses are logged and passed over.
    It never writes to the positions or the trades. *)
Theorem updateLeaderboardFromAPI_error fetched db :
  let r := updateLeaderboardFromAPI cfg fetched db in
  r.1.1 = match fetched with inl e => Some e | inr _ => None end /\
  positions r.1.2 = positions db /\ trades r.1.2 = trades db /\
  (forall e, fetched = inl e -> r.1.2 = db).
Proof.
  pose proof (updateLeaderboardFromAPI_leaves fetched db) as (Herr & Hp & Ht & _).
  repeat apply conj; [exact Herr | exact Hp | exact Ht |].
  intros e ->. reflexivity.
Qed.

(** X26.  No win rate above 0.9 enters the ranking: if every ranked trader
    has a win rate of 0.9 at most, so has every ranked trader after an
    update. *)
Theorem updateLeaderboardFromAPI_caps_win_rate fetched db :
  Forall capped (top_traders db) ->
  Forall capped (top_traders (updateLeaderboardFromAPI cfg fetched db).1.2).
Proof.
  pose proof (updateLeaderboardFromAPI_leaves fetched db) as (_ & _ & _ & _ & _ & Hcap & _).
  exact Hcap.
Qed.

Lemma serve_ticks fetches rest : forall db,
  (serve cfg (map TickerC fetches ++ rest) db).1 =
  (serve cfg rest
     (fold_left (fun db fetched => (updateLeaderboardFromAPI cfg fetched db).1.2)
        fetches db)).1.
Proof.
  induction fetches as [| fetched fetches IH]; intros db; [reflexivity |].
  cbn [map app serve fold_left].
  destruct (updateLeaderboardFromAPI cfg fetched db) as [[failed db1] out1].
  specialize (IH db1). cbn [fst snd].
  destruct (serve cfg (map TickerC fetches ++ rest) db1) as [[exit db2] out2].
  cbn [fst] in *. exact IH.
Qed.

(** X27.  The service outlives every failed update: after the first update
    and any number of ticks, failed or not, [Start] is still waiting, and it
    returns only when the context is done, with the context's error; what
    would come after that is never served. *)
Theorem Start_serves_until_done initial fetches err rest db :
  let db1 := (updateLeaderboardFromAPI cfg initial db).1.2 in
  let db2 := fold_left (fun db fetched => (updateLeaderboardFromAPI cfg fetched db).1.2)
               fetches db1 in
  (Start cfg initial (map TickerC fetches) db).1 = (Waiting, db2) /\
  (Start cfg initial (map TickerC fetches ++ Done err :: rest) db).1 = (Returned err, db2).
Proof.
  cbv zeta. unfold Start.
  destruct (updateLeaderboardFromAPI cfg initial db) as [[failed db1] out1]. cbn [fst snd].
  split.
  - pose proof (serve_ticks fetches [] db1) as H. rewrite app_nil_r in H.
    destruct (serve cfg (map TickerC fetches) db1) as [[exit db'] out']. cbn [fst] in *.
    exact H.
  - pose proof (serve_ticks fetches (Done err :: rest) db1) as H.
    destruct (serve cfg (map TickerC fetches ++ Done err :: rest) db1) as [[exit db'] out'].
    cbn [fst] in *. exact H.
Qed.

End Ingesting.

(** ** The configuration *)

Section Configuring.

Import Configuration.

(** X28.  A configuration that [Load] returns has no zero among the settings
    that have a default: the database path and the RPC URL are not empty, the
    trader count, the profit threshold and the multiplier are not 0.  Settings
    that were given are kept, and the other fields are those of the file. *)
Theorem Load_fills_defaults cfg :
  exists c, Load (inr (inr cfg)) = inr c /\
  DatabasePath c <> "" /\ TopTradersCount c <> 0 /\
  (MinProfitThreshold c =? 0)%float = false /\
  (CopyTradeMultiplier c =? 0)%float = false /\
  PolygonRPCURL c <> "" /\
  (DatabasePath cfg <> "" -> DatabasePath c = DatabasePath cfg) /\
  (TopTradersCount cfg <> 0 -> TopTradersCount c = TopTradersCount cfg) /\
  ((MinProfitThreshold cfg =? 0)%float = false ->
   MinProfitThreshold c = MinProfitThreshold cfg) /\
  ((CopyTradeMultiplier cfg =? 0)%float = false ->
   CopyTradeMultiplier c = CopyTradeMultiplier cfg) /\
  (PolygonRPCURL cfg <> "" -> PolygonRPCURL c = PolygonRPCURL cfg) /\
  (TelegramBotToken c, TelegramChatID c, PrivateKey c, WalletAddress c, DryRun c) =
  (TelegramBotToken cfg, TelegramChatID cfg, PrivateKey cfg, WalletAddress cfg, DryRun cfg) /\
  set_defaults c = c.
Proof.
  exists (set_defaults cfg). split; [reflexivity |].
  unfold set_defaults. destruct cfg as [path count threshold multiplier token chat key wallet url dry].
  cbn.
  destruct (String.eqb_spec path "") as [-> | Hpath],
           (Z.eqb_spec count 0) as [-> | Hcount],
           (threshold =? 0)%float eqn:Hthreshold,
           (multiplier =? 0)%float eqn:Hmultiplier,
           (String.eqb_spec url "") as [-> | Hurl];
    cbn; rewrite ?Hthreshold, ?Hmultiplier;
    repeat match goal with
      | |- context [String.eqb ?s ""] => destruct (String.eqb_spec s ""); try contradiction
      | |- context [?z =? 0] => destruct (Z.eqb_spec z 0); try contradiction
      end;
    repeat apply conj; try reflexivity; try discriminate; try assumption;
    try (intros; reflexivity); try (intros H; exfalso; apply H; reflexivity);
    try (intros H; discriminate H).
Qed.

(** X29.  [Validate] accepts exactly the configurations that have a bot
    token, a chat id, a private key and a wallet address, and it names the
    first of them that is missing, in this order: the bot token, the chat id,
    the private key, the wallet address.  The defaults of [Load] supply none
    of the four: [Validate] answers the same after [Load] as before. *)
Theorem Validate_required c :
  (Validate c = None <->
   TelegramBotToken c <> "" /\ TelegramChatID c <> 0 /\
   PrivateKey c <> "" /\ WalletAddress c <> "") /\
  (TelegramBotToken c = "" ->
   Validate c = Some (ErrorString "telegram_bot_token is required")) /\
  (TelegramBotToken c <> "" -> TelegramChatID c = 0 ->
   Validate c = Some (ErrorString "telegram_chat_id is required")) /\
  (TelegramBotToken c <> "" -> TelegramChatID c <> 0 -> PrivateKey c = "" ->
   Validate c = Some (ErrorString "private_key is required")) /\
  (TelegramBotToken c <> "" -> TelegramChatID c <> 0 -> PrivateKey c <> "" ->
   WalletAddress c = "" ->
   Validate c = Some (ErrorString "wallet_address is required")) /\
  Validate (set_defaults c) = Validate c.
Proof.
  unfold Validate, set_defaults. cbn.
  destruct (String.eqb_spec (TelegramBotToken c) "") as [Htoken | Htoken],
           (Z.eqb_spec (TelegramChatID c) 0) as [Hchat | Hchat],
           (String.eqb_spec (PrivateKey c) "") as [Hkey | Hkey],
           (String.eqb_spec (WalletAddress c) "") as [Hwallet | Hwallet];
    repeat apply conj; try reflexivity; try tauto;
    try (intros H; discriminate H); try (intros; contradiction).
Qed.

End Configuring.

(** ** Instances *)

Lemma UnpackIntoInterface_fields_witness :
  Listener.UnpackIntoInterface (Listener.Data Samples.fill_log) =
  inr {| Listener.OrderHash := 0; Listener.Maker := 0; Listener.Taker := 0;
         Listener.MakerAssetId := 0; Listener.TakerAssetId := 77;
         Listener.MakerAmountFilled := 10000000;
         Listener.TakerAmountFilled := 20; Listener.Fee := 0 |} /\
  0 <= 77 < 2 ^ 256.
Proof.
  split; [reflexivity |].
  apply (UnpackIntoInterface_fields (Listener.Data Samples.fill_log) _ eq_refl).
Defined.

Lemma processOrderFilled_ignores_topics_witness :
  Listener.Data Samples.fill_log = Listener.Data Samples.fill_log_other_topics /\
  Listener.LogTxHash Samples.fill_log = Listener.LogTxHash Samples.fill_log_other_topics /\
  Listener.processOrderFilled Samples.plainHex Samples.zero_tracker Samples.fill_log =
  Listener.processOrderFilled Samples.plainHex Samples.zero_tracker
    Samples.fill_log_other_topics.
Proof.
  split; [reflexivity | split; [reflexivity |]].
  apply (processOrderFilled_ignores_topics Samples.plainHex Samples.zero_tracker
           Samples.fill_log Samples.fill_log_other_topics); reflexivity.
Defined.

Lemma processOrderFilled_detects_nothing_witness :
  Listener.isTop Samples.nobody (ToLower (Samples.plainHex 0)) = false /\
  ((exists err,
      Listener.processOrderFilled Samples.plainHex Samples.nobody Samples.fill_log =
      ([], Listener.Ret (Some err))) \/
   Listener.processOrderFilled Samples.plainHex Samples.nobody Samples.fill_log =
   ([Listener.Log_not_top_trader], Listener.Ret None)).
Proof.
  split; [reflexivity |].
  apply (processOrderFilled_detects_nothing Samples.plainHex Samples.nobody
           Samples.fill_log).
  reflexivity.
Defined.

Lemma extractTradeSignal_price_zero_witness :
  0 <= Listener.TakerAmountFilled Samples.dust_buys /\
  Listener.Price
    (Listener.extractTradeSignal Samples.plainHex Samples.dust_buys false true)
  = Some 0.
Proof.
  split; [cbn; lia |].
  apply (extractTradeSignal_price_zero Samples.plainHex Samples.dust_buys false true);
    cbn; repeat apply conj; try reflexivity; lia.
Defined.

Lemma processBlock_processes_all_witness :
  Listener.processBlock Samples.plainHex Samples.zero_tracker 9
    (inr [Samples.matched_log; Samples.fill_log]) =
  (Listener.outputs Samples.plainHex Samples.zero_tracker
     [Samples.matched_log; Samples.fill_log],
   Listener.Ret None).
Proof.
  apply (processBlock_processes_all Samples.plainHex Samples.zero_tracker 9).
  repeat constructor.
Defined.

Lemma watch_panics_on_bare_log_witness :
  Listener.watch Samples.plainHex Samples.nobody
    [Listener.Header 9
       (inr ([Samples.matched_log] ++ Samples.no_topic_log :: [Samples.matched_log]));
     Listener.Header 10 (inr [Samples.matched_log])] =
  ([Listener.Println_topics [2; 6]; Listener.Log_orders_matched 8;
    Listener.Println_topics []],
   Listener.Panicked (IndexOutOfRange 0 0)).
Proof.
  apply (watch_panics_on_bare_log Samples.plainHex Samples.nobody 9
           [Samples.matched_log] Samples.no_topic_log [Samples.matched_log]).
  - repeat constructor.
  - reflexivity.
Defined.


Lemma UpdateTradeStatus_missing_trade_witness :
  ~ In 5 (map Database.t_id (Database.trades (Database.empty []))) /\
  (Database.UpdateTradeStatus 5 "confirmed" "0xabc" (Database.empty [])).1 = None /\
  Database.trades
    (Database.UpdateTradeStatus 5 "confirmed" "0xabc" (Database.empty [])).2 = [].
Proof.
  assert (Habsent : ~ In 5 (map Database.t_id (Database.trades (Database.empty []))))
    by (intros []).
  split; [exact Habsent |].
  destruct (UpdateTradeStatus_missing_trade 5 "confirmed" "0xabc" (Database.empty [])
              Habsent) as (Herr & Htrades & _).
  split; [exact Herr | exact Htrades].
Defined.

Lemma ledger_ok_empty script : Database.ledger_ok (Database.empty script).
Proof. repeat apply conj; cbn; try constructor. intros row []. Qed.

Lemma deliver_keeps_ledger_witness :
  Database.ledger_ok (Database.empty [None; Some Samples.no_chain_id]) /\
  Database.ledger_ok
    (Executor.deliver 3 None Samples.request
       (Database.empty [None; Some Samples.no_chain_id])).
Proof.
  split; [apply ledger_ok_empty |].
  apply (deliver_keeps_ledger 3 None Samples.request), ledger_ok_empty.
Defined.

Lemma GetOpenPositions_returns_all_witness :
  Database.ledger_ok (Database.empty []) /\
  length
    match (Database.GetOpenPositions
             (Executor.deliver 2 (Some Samples.no_chain_id) Samples.request
                (Database.empty []))).1 with
    | inr positions => positions
    | inl _ => []
    end = 2%nat.
Proof.
  split; [apply ledger_ok_empty |].
  rewrite (GetOpenPositions_returns_all 2 (Some Samples.no_chain_id) Samples.request
             (Database.empty []) (ledger_ok_empty []) eq_refl).
  reflexivity.
Defined.

Lemma UpsertTopTrader_reads_back_witness :
  Database.fault_at 0 Samples.ranked = None /\
  Database.find_trader "0xbb"
    (Database.top_traders
       (Database.UpsertTopTrader "0xbb" 4000%float 0.5%float Samples.ranked).2) =
  Some {| Database.r_address := "0xbb"; Database.r_total_pnl := 4000%float;
          Database.r_win_rate := 0.5%float |}.
Proof.
  split; [reflexivity |].
  apply (UpsertTopTrader_reads_back "0xbb" 4000%float 0.5%float Samples.ranked eq_refl).
Defined.


Lemma GetTopTraders_descending_witness :
  Database.fault_at 0 Samples.ranked = None /\
  exists rows,
    (Database.GetTopTraders 2 Samples.ranked).1 = inr (map Database.r_address rows) /\
    Sorted Database.not_below rows /\
    (forall row, In row rows -> In row (Database.top_traders Samples.ranked)).
Proof.
  split; [reflexivity |].
  apply (GetTopTraders_descending 2 Samples.ranked eq_refl).
Defined.

Lemma updateLeaderboardFromAPI_below_threshold_witness :
  Ingestion.kept Samples.thousand [Samples.minnow] = [] /\
  Database.top_traders
    (Ingestion.updateLeaderboardFromAPI Samples.thousand (inr [Samples.minnow])
       Samples.ranked).1.2
  = Database.top_traders Samples.ranked.
Proof.
  split; [reflexivity |].
  apply (updateLeaderboardFromAPI_below_threshold Samples.thousand [Samples.minnow]
           Samples.ranked eq_refl).
Defined.

Lemma updateLeaderboardFromAPI_caps_win_rate_witness :
  Forall Ingestion.capped (Database.top_traders Samples.ranked) /\
  Forall Ingestion.capped
    (Database.top_traders
       (Ingestion.updateLeaderboardFromAPI Samples.thousand
          (inr [Samples.whale; Samples.minnow]) Samples.ranked).1.2).
Proof.
  assert (Hcapped : Forall Ingestion.capped (Database.top_traders Samples.ranked))
    by (repeat constructor).
  split; [exact Hcapped |].
  apply (updateLeaderboardFromAPI_caps_win_rate Samples.thousand), Hcapped.
Defined.
